(** * riptide: peak detection on a periodogram (riptide/peak_detection.py)

    A shallow embedding of [segment], [segment_stats], the two threshold
    policies, [Peak], [Detection], [find_peaks_single] and [find_peaks].

    Conventions of the embedding.
    - Python [int] is [Z]; a Python/NumPy float is an exact rational [Q].
      Rounding, NaN and overflow of binary floating point are outside the
      model.  A division whose divisor is zero gives a non-finite float in
      NumPy; the embedding makes that explicit with [fdiv], which returns
      [None] there.
    - A raised exception is an [Err] of the [result] monad.
    - A one-dimensional array is a list, a two-dimensional array is an
      [ndarray2] (column count and rows), a [dict] is a [gmap].
    - The NumPy numeric kernels the module calls ([np.log], [np.percentile],
      [np.polyfit]) are the fields of the class [NumPy]; every theorem holds
      for every instance.
    - [cluster_1d] lives in riptide/clustering.py; the peak finders take it
      as an argument, and a reference clustering is given below. *)

From Stdlib Require Import ZArith QArith Qround Qminmax Qabs Lia Lqa.
From stdpp Require Import base list sorting strings gmap.

Local Open Scope Z_scope.

(** ** Exceptions *)

Inductive exn : Type :=
| IndexError
| KeyError
| ValueError
| OverflowError.

Inductive result (A : Type) : Type :=
| Ok (a : A)
| Err (e : exn).

Arguments Ok {A} a.
Arguments Err {A} e.

#[global] Instance result_ret : MRet result := λ A a, Ok a.

#[global] Instance result_bind : MBind result := λ A B f m,
  match m with
  | Ok a => f a
  | Err e => Err e
  end.

Definition is_Ok {A} (r : result A) : Prop := ∃ a, r = Ok a.

Definition is_Err {A} (r : result A) : Prop := ∃ e, r = Err e.

Definition of_option {A} (e : exn) (o : option A) : result A :=
  match o with
  | Some a => Ok a
  | None => Err e
  end.

(** [mapM] in the [result] monad: the first failure aborts the traversal. *)
Fixpoint result_mapM {A B} (f : A → result B) (l : list A) : result (list B) :=
  match l with
  | [] => Ok []
  | a :: l' => b ← f a; bs ← result_mapM f l'; Ok (b :: bs)
  end.

(** ** Python and NumPy primitives *)

(** Float division; [None] is a non-finite value. *)
Definition fdiv (a b : Q) : option Q :=
  if Qeq_bool b 0 then None else Some (a / b)%Q.

Definition fsub (a b : option Q) : option Q :=
  x ← a; y ← b; Some (x - y)%Q.

(** Truncation toward zero, as [int(x)] does on a finite float. *)
Definition Qtrunc (q : Q) : Z := Z.quot (Qnum q) (Zpos (Qden q)).

(** [int(x)]: raises on a non-finite argument ([OverflowError] on an
    infinity, [ValueError] on a NaN; the embedding does not tell them
    apart). *)
Definition py_int (x : option Q) : result Z :=
  match x with
  | Some q => Ok (Qtrunc q)
  | None => Err OverflowError
  end.

Definition len {A} (l : list A) : Z := Z.of_nat (length l).

(** [l[i]] with Python's negative indices. *)
Definition py_index {A} (l : list A) (i : Z) : result A :=
  if 0 <=? i then of_option IndexError (l !! Z.to_nat i)
  else if 0 <=? len l + i then of_option IndexError (l !! Z.to_nat (len l + i))
  else Err IndexError.

(** [range(n)] *)
Definition py_range (n : Z) : list Z := Z.of_nat <$> seq 0 (Z.to_nat n).

(** [l[-1] = x] on a non-empty list. *)
Definition set_last {A} (l : list A) (x : A) : list A :=
  <[pred (length l) := x]> l.

(** A slice bound, resolved as Python does: a negative bound counts from the
    end, and the result is clipped to [[0, len]]. *)
Definition slice_bound (n i : Z) : nat :=
  Z.to_nat (if i <? 0 then Z.max 0 (n + i) else Z.min i n).

(** [a[s:e]]: slices never raise, they clip. *)
Definition py_slice {A} (l : list A) (s e : Z) : list A :=
  let s' := slice_bound (len l) s in
  let e' := slice_bound (len l) e in
  take (e' - s') (drop s' l).

Definition Qltb (x y : Q) : bool :=
  match (x ?= y)%Q with
  | Lt => true
  | _ => false
  end.

(** [a > b] on two one-dimensional arrays, with NumPy broadcasting: equal
    lengths compare elementwise, a length-1 operand is stretched, anything
    else raises. *)
Definition np_greater (a b : list Q) : result (list bool) :=
  if decide (length a = length b) then Ok (zip_with (λ x y, Qltb y x) a b)
  else match a, b with
       | [x], _ => Ok ((λ y, Qltb y x) <$> b)
       | _, [y] => Ok ((λ x, Qltb y x) <$> a)
       | _, _ => Err ValueError
       end.

(** [np.where(mask)[0]] *)
Fixpoint np_where_from (i : nat) (mask : list bool) : list nat :=
  match mask with
  | [] => []
  | b :: mask' => (if b then [i] else []) ++ np_where_from (S i) mask'
  end.

Definition np_where (mask : list bool) : list nat := np_where_from 0 mask.

(** [a[mask]] with a boolean mask: the mask must have the array's length. *)
Definition np_mask {A} (a : list A) (mask : list bool) : result (list A) :=
  if decide (length mask = length a)
  then Ok (omap (λ p : A * bool, if p.2 then Some p.1 else None) (zip a mask))
  else Err IndexError.

(** [a[indices]] with an integer index array. *)
Definition np_take {A} (a : list A) (indices : list nat) : result (list A) :=
  result_mapM (λ i, of_option IndexError (a !! i)) indices.

(** [a.argmax()]: index of the first maximum; raises on an empty array. *)
Fixpoint argmax_from (best : Q) (ibest i : nat) (l : list Q) : nat :=
  match l with
  | [] => ibest
  | x :: l' =>
      if Qltb best x then argmax_from x i (S i) l'
      else argmax_from best ibest (S i) l'
  end.

Definition np_argmax (l : list Q) : result nat :=
  match l with
  | [] => Err ValueError
  | x :: l' => Ok (argmax_from x 0%nat 1%nat l')
  end.

(** [np.poly1d(c)(x)]: coefficients from the highest degree down. *)
Definition polyval (c : list Q) (x : Q) : Q :=
  foldl (λ acc ci, acc * x + ci)%Q 0%Q c.

(** [np.poly1d(c).coefficients]: the constructor strips the leading zero
    coefficients, and keeps a single zero for the null polynomial. *)
Fixpoint trim_zeros_front (c : list Q) : list Q :=
  match c with
  | [] => []
  | x :: c' => if Qeq_bool x 0 then trim_zeros_front c' else c
  end.

Definition poly1d (c : list Q) : list Q :=
  match trim_zeros_front c with
  | [] => [0%Q]
  | c' => c'
  end.

(** [np.maximum(a, s)] with a scalar [s]. *)
Definition np_maximum (a : list Q) (s : Q) : list Q := (λ x, Qmax x s) <$> a.

(** The numeric kernels of NumPy the module relies on.  [np.percentile] and
    [np.polyfit] may raise (an empty sample, an empty abscissa vector, a
    fit that does not converge), hence their [result] type. *)
Class NumPy : Type := {
  np_log : Q → Q;
  np_percentile : list Q → Q → result Q;
  np_polyfit : list Q → list Q → nat → result (list Q);
}.

(** A two-dimensional array: its number of columns and its rows. *)
Record ndarray2 : Type := {
  ncols : nat;
  rows : list (list Q);
}.

Definition nrows (a : ndarray2) : nat := length (rows a).

(** Every row has [ncols] entries. *)
Definition rectangular (a : ndarray2) : Prop :=
  Forall (λ row, length row = ncols a) (rows a).

(** [a[:, j]] *)
Definition np_column (a : ndarray2) (j : nat) : result (list Q) :=
  if decide (j < ncols a)%nat
  then result_mapM (λ row : list Q, of_option IndexError (row !! j)) (rows a)
  else Err IndexError.

(** [a[indices, :]] *)
Definition np_take_rows (a : ndarray2) (indices : list nat) : result ndarray2 :=
  rs ← np_take (rows a) indices;
  Ok {| ncols := ncols a; rows := rs |}.

(** [max(l, key=key)]: the first element whose key is maximal; raises on an
    empty sequence. *)
Fixpoint max_from {A} (key : A → Q) (best : A) (l : list A) : A :=
  match l with
  | [] => best
  | x :: l' => if Qltb (key best) (key x) then max_from key x l'
               else max_from key best l'
  end.

Definition py_max {A} (key : A → Q) (l : list A) : result A :=
  match l with
  | [] => Err ValueError
  | x :: l' => Ok (max_from key x l')
  end.

(** ** Segmentation *)

Record Segment : Type := {
  istart : Z;
  iend : Z;
  imid : Z;
  pmid : Q;
  logpmid : Q;
}.

Section Segmentation.
Context `{NumPy}.

(** The list comprehension of [segment] followed by the overwrite of its
    last entry. *)
Definition segment_boundaries (n nseg : Z) : list (Z * Z) :=
  let slen := n `div` nseg in
  let boundaries := (λ iseg, (iseg * slen, (iseg + 1) * slen)) <$> py_range nseg in
  match last boundaries with
  | Some lst => set_last boundaries (lst.1, n)
  | None => boundaries
  end.

Definition segment_nseg (periods : list Q) (tobs segment_dftbins_length : Q)
  : result Z :=
  p0 ← py_index periods 0;
  plast ← py_index periods (-1);
  let dbi_range := fsub (fdiv tobs p0) (fdiv tobs plast) in
  q ← py_int (dbi_range ≫= λ r, fdiv r segment_dftbins_length);
  Ok (Z.max 1 q).

Definition segment_row (periods : list Q) (b : Z * Z) : result Segment :=
  let imid := (b.1 + b.2) `div` 2 in
  pmid ← py_index periods imid;
  Ok {| istart := b.1; iend := b.2; imid := imid; pmid := pmid;
        logpmid := np_log pmid |}.

Definition segment (periods : list Q) (tobs segment_dftbins_length : Q)
  : result (list Segment) :=
  nseg ← segment_nseg periods tobs segment_dftbins_length;
  result_mapM (segment_row periods) (segment_boundaries (len periods) nseg).

End Segmentation.

(** ** Segment statistics and the two threshold policies *)

Record SegStats : Type := {
  p25 : Q;
  median : Q;
  p75 : Q;
  sigma : Q;
  stats_pmid : Q;
  stats_logpmid : Q;
}.

Record Peak : Type := {
  period : Q;
  snr : Q;
  dm : Q;
  iw : nat;
  width : Z;
  ducy : option Q;
}.

(** The input grid.  [bins_avg] is [pgram._plan.bins_avg]. *)
Record Periodogram : Type := {
  periods : list Q;
  snrs : ndarray2;
  widths : list Z;
  tobs : Q;
  metadata : gmap string Q;
  bins_avg : Q;
}.

(** [Detection] inherits from [Peak]: the coercion gives a Detection the
    attributes of its parent class. *)
Record Detection : Type := {
  as_peak :> Peak;
  peaks : list Peak;
  period_trials : list Q;
  snr_trials : ndarray2;
  width_trials : list Z;
  det_metadata : gmap string Q;
}.

(** The clustering of riptide/clustering.py, as the peak finders call it:
    an array of values and a radius give a list of index groups. *)
Definition Clustering : Type := list (option Q) → Q → list (list nat).

Section PeakDetection.
Context `{NumPy}.

Definition segment_stats_row (snrs : list Q) (b : Segment) : result SegStats :=
  let sample := py_slice snrs (istart b) (iend b) in
  q25 ← np_percentile sample 25;
  q50 ← np_percentile sample 50;
  q75 ← np_percentile sample 75;
  Ok {| p25 := q25; median := q50; p75 := q75;
        sigma := ((q75 - q25) / 1.349)%Q;
        stats_pmid := pmid b; stats_logpmid := logpmid b |}.

Definition segment_stats (snrs : list Q) (boundaries : list Segment)
  : result (list SegStats) :=
  result_mapM (segment_stats_row snrs) boundaries.

Definition threshold_function_dynamic (stats : list SegStats)
    (snr_min nsigma : Q) (polydeg : nat)
  : result ((list Q → list Q) * list Q) :=
  let x := stats_logpmid <$> stats in
  let y := (λ st, median st + nsigma * sigma st)%Q <$> stats in
  c ← np_polyfit x y polydeg;
  let poly := poly1d c in
  let func := λ period : list Q,
    np_maximum (polyval poly <$> (np_log <$> period)) snr_min in
  Ok (func, poly).

Definition threshold_function_static (snr_min : Q) (polydeg : nat)
  : (list Q → list Q) * list Q :=
  let func := λ period : list Q, replicate (length period) snr_min in
  let polyco := replicate (polydeg + 1) 0%Q in
  (func, polyco).

(** The body of the loop over the clusters in [find_peaks_single]. *)
Definition cluster_peak (periods snrs : list Q) (significant_indices : list nat)
    (dm : Q) (iwidth : nat) (width : Z) (bins_avg : Q) (cli : list nat)
  : result Peak :=
  peak_indices ← np_take significant_indices cli;
  periods_slice ← np_take periods peak_indices;
  snrs_slice ← np_take snrs peak_indices;
  imax ← np_argmax snrs_slice;
  let ducy := fdiv (inject_Z width) bins_avg in
  p ← of_option IndexError (periods_slice !! imax);
  s ← of_option IndexError (snrs_slice !! imax);
  Ok {| period := p; snr := s; dm := dm; iw := iwidth; width := width;
        ducy := ducy |}.

(** The search for peaks among the significant trials in
    [find_peaks_single]: nothing to do without a significant trial, one
    peak per cluster otherwise. *)
Definition extract_peaks (cluster_1d : Clustering) (periods : list Q) (tobs : Q)
    (snrs : list Q) (significant_mask : list bool) (dm : Q) (iwidth : nat)
    (width : Z) (bins_avg peak_clustering_radius : Q) : result (list Peak) :=
  let significant_indices := np_where significant_mask in
  match significant_indices with
  | [] => Ok []
  | _ =>
      significant_periods ← np_mask periods significant_mask;
      let dbi := fdiv tobs <$> significant_periods in
      result_mapM
        (cluster_peak periods snrs significant_indices dm iwidth width bins_avg)
        (cluster_1d dbi peak_clustering_radius)
  end.

(** The choice between the two policies in [find_peaks_single]. *)
Definition select_threshold (stats : list SegStats) (boundaries : list Segment)
    (min_segments : Z) (snr_min nsigma : Q) (polydeg : nat)
  : result ((list Q → list Q) * list Q) :=
  if len boundaries <? min_segments
  then Ok (threshold_function_static snr_min polydeg)
  else threshold_function_dynamic stats snr_min nsigma polydeg.

Definition find_peaks_single (cluster_1d : Clustering) (pgram : Periodogram)
    (iwidth : nat) (boundaries : list Segment) (min_segments : Z)
    (snr_min nsigma peak_clustering_radius : Q) (polydeg : nat)
  : result (list SegStats * list Q * list Q * list Peak) :=
  let periods := periods pgram in
  snrs ← np_column (snrs pgram) iwidth;
  width ← of_option IndexError (widths pgram !! iwidth);
  let tobs := tobs pgram in
  dm ← of_option KeyError (metadata pgram !! "dm");
  let bins_avg := bins_avg pgram in
  stats ← segment_stats snrs boundaries;
  '(tfunc, polyco) ←
    select_threshold stats boundaries min_segments snr_min nsigma polydeg;
  let threshold := tfunc periods in
  significant_mask ← np_greater snrs threshold;
  peaks ← extract_peaks cluster_1d periods tobs snrs significant_mask dm iwidth
             width bins_avg peak_clustering_radius;
  Ok (stats, polyco, threshold, peaks).

(** [Detection.__init__] *)
Definition within_slice (center : option Q) (period_slice_width : Q)
    (dbi : option Q) : bool :=
  match fsub dbi center with
  | Some d => Qltb (Qabs d) (period_slice_width / 2)
  | None => false
  end.

Definition Detection_init (peaks : list Peak) (pgram : Periodogram)
    (period_slice_width : Q) : result Detection :=
  top ← py_max snr peaks;
  let dbis := fdiv (tobs pgram) <$> periods pgram in
  let period_slice_mask :=
    within_slice (fdiv (tobs pgram) (period top)) period_slice_width <$> dbis in
  let period_slice_indices := np_where period_slice_mask in
  period_trials ← np_take (periods pgram) period_slice_indices;
  snr_trials ← np_take_rows (snrs pgram) period_slice_indices;
  Ok {| as_peak := top; peaks := peaks; period_trials := period_trials;
        snr_trials := snr_trials; width_trials := widths pgram;
        det_metadata := metadata pgram |}.

(** The loop over the width trials in [find_peaks]: [iwidths] are the
    indices still to visit, [all_peaks] the peaks pooled so far. *)
Fixpoint find_peaks_loop (cluster_1d : Clustering) (pgram : Periodogram)
    (boundaries : list Segment) (min_segments : Z)
    (snr_min nsigma peak_clustering_radius : Q) (polydeg : nat)
    (iwidths : list nat) (all_peaks : list Peak) : result (list Peak) :=
  match iwidths with
  | [] => Ok all_peaks
  | iwidth :: rest =>
      '(stats, polyco, threshold, peaks) ←
        find_peaks_single cluster_1d pgram iwidth boundaries min_segments
          snr_min nsigma peak_clustering_radius polydeg;
      find_peaks_loop cluster_1d pgram boundaries min_segments snr_min nsigma
        peak_clustering_radius polydeg rest (all_peaks ++ peaks)
  end.

(** The first stage of [find_peaks]: segmentation, then the pooled peaks of
    all width trials. *)
Definition pooled_peaks (cluster_1d : Clustering) (pgram : Periodogram)
    (segment_dftbins_length : Q) (min_segments : Z)
    (snr_min nsigma peak_clustering_radius : Q) (polydeg : nat)
  : result (list Peak) :=
  boundaries ← segment (periods pgram) (tobs pgram) segment_dftbins_length;
  find_peaks_loop cluster_1d pgram boundaries min_segments snr_min nsigma
    peak_clustering_radius polydeg (seq 0 (length (widths pgram))) [].

(** The array of DFT bin indices of the pooled peaks. *)
Definition peaks_dbi (pgram : Periodogram) (all_peaks : list Peak)
  : list (option Q) :=
  (λ peak, fdiv (tobs pgram) (period peak)) <$> all_peaks.

(** The body of the second loop of [find_peaks]. *)
Definition cluster_detection (pgram : Periodogram) (all_peaks : list Peak)
    (period_slice_width : Q) (cluster_indices : list nat) : result Detection :=
  peak_group ← np_take all_peaks cluster_indices;
  Detection_init peak_group pgram period_slice_width.

Definition find_peaks (cluster_1d : Clustering) (pgram : Periodogram)
    (segment_dftbins_length : Q) (min_segments : Z)
    (snr_min nsigma peak_clustering_radius : Q) (polydeg : nat)
    (period_slice_width : Q) : result (list Detection) :=
  all_peaks ← pooled_peaks cluster_1d pgram segment_dftbins_length min_segments
                 snr_min nsigma peak_clustering_radius polydeg;
  let dbi := peaks_dbi pgram all_peaks in
  result_mapM (cluster_detection pgram all_peaks period_slice_width)
    (cluster_1d dbi peak_clustering_radius).

End PeakDetection.

(** The defaults of the keyword arguments. *)
Definition default_segment_dftbins_length : Q := 10.
Definition default_min_segments : Z := 8.
Definition default_snr_min : Q := 6.5.
Definition default_nsigma : Q := 6.5.
Definition default_peak_clustering_radius : Q := 0.20.
Definition default_polydeg : nat := 2.
Definition default_period_slice_width : Q := 1.

(** ** The contract of the clustering, and a reference clustering *)

(** What the peak finders need of a clustering of [n] values: every group is
    non-empty and holds indices of the clustered array. *)
Definition cluster_valid (n : nat) (clusters : list (list nat)) : Prop :=
  Forall (λ g : list nat, g ≠ [] ∧ Forall (λ i, i < n)%nat g) clusters.

#[global] Instance cluster_valid_dec n clusters : Decision (cluster_valid n clusters).
Proof. unfold cluster_valid. apply _. Defined.

(** Order on array values with the non-finite ones last, as [np.argsort]
    places NaN. *)
Definition dbi_le (a b : option Q) : Prop :=
  match a, b with
  | Some x, Some y => Qle_bool x y
  | _, None => True
  | None, Some _ => False
  end.

#[global] Instance dbi_le_dec a b : Decision (dbi_le a b).
Proof. unfold dbi_le. destruct a, b; apply _. Defined.

(** The gap between two consecutive sorted values reaches the radius; a
    non-finite value is within the radius of no other value. *)
Definition gap_ge (a b : option Q) (r : Q) : bool :=
  match a, b with
  | Some x, Some y => Qle_bool r (y - x)
  | _, _ => true
  end.

Definition argsort (x : list (option Q)) : list nat :=
  merge_sort (λ i j, dbi_le (x !!! i) (x !!! j)) (seq 0 (length x)).

(** Cuts the sorted indices [rest] into runs; [prev] is the index before
    [rest] and [cur] the run that [prev] ends. *)
Fixpoint split_runs (x : list (option Q)) (r : Q) (prev : nat)
    (cur rest : list nat) : list (list nat) :=
  match rest with
  | [] => [cur]
  | i :: rest' =>
      if gap_ge (x !!! prev) (x !!! i) r
      then cur :: split_runs x r i [i] rest'
      else split_runs x r i (cur ++ [i]) rest'
  end.

(** Modelled from the spec: [cluster_1d] of riptide/clustering.py is not part
    of the source tree.  Section 4.1 of the specification: sort the values,
    split wherever the gap between two consecutive sorted values is at least
    the radius, and map the runs back to the original indices; groups come
    in ascending order of their values and none is empty. *)
Definition cluster_1d : Clustering := λ x r,
  match argsort x with
  | [] => []
  | i :: rest => split_runs x r i [i] rest
  end.

(** ** An exact instance of the numeric kernels, for the examples *)

Definition Qle_dec_bool (x y : Q) : Prop := Qle_bool x y.

Definition Qsort (l : list Q) : list Q := merge_sort Qle_dec_bool l.

(** [np.percentile] with its default linear interpolation between the two
    nearest order statistics. *)
Definition percentile_linear (a : list Q) (q : Q) : result Q :=
  let sorted := Qsort a in
  match sorted with
  | [] => Err IndexError
  | x0 :: _ =>
      let pos := (q / 100 * inject_Z (len a - 1))%Q in
      let lo := Z.to_nat (Qfloor pos) in
      let frac := (pos - inject_Z (Qfloor pos))%Q in
      let vlo := default x0 (sorted !! lo) in
      let vhi := default vlo (sorted !! S lo) in
      Ok (Qred (vlo + frac * (vhi - vlo)))
  end.

(** Gauss-Jordan elimination on an augmented matrix: [done] are the rows
    already reduced, [todo] the others, [col] the column to clear. *)
Definition row_sub (pivot : list Q) (col : nat) (row : list Q) : list Q :=
  let f := default 0%Q (row !! col) in
  zip_with (λ a b, Qred (a - f * b)) row pivot.

Fixpoint find_pivot (col : nat) (before todo : list (list Q))
  : option (list (list Q) * list Q * list (list Q)) :=
  match todo with
  | [] => None
  | row :: todo' =>
      if Qeq_bool (default 0%Q (row !! col)) 0
      then find_pivot col (before ++ [row]) todo'
      else Some (before, row, todo')
  end.

Fixpoint gauss_jordan (steps col : nat) (done todo : list (list Q))
  : result (list (list Q)) :=
  match steps with
  | O => Ok done
  | S steps' =>
      match find_pivot col [] todo with
      | None => Err ValueError
      | Some (before, row, after) =>
          let c := default 1%Q (row !! col) in
          let pivot := (λ a, Qred (a / c)) <$> row in
          gauss_jordan steps' (S col)
            ((row_sub pivot col <$> done) ++ [pivot])
            (row_sub pivot col <$> (before ++ after))
      end
  end.

Definition Qsum (l : list Q) : Q := foldr Qplus 0%Q l.

(** Least-squares polynomial fit through the normal equations
    [V^T V c = V^T y], [V] being the Vandermonde matrix of [x] with the
    highest power first.  Raises on an empty [x], on vectors of different
    lengths and on a singular system. *)
Definition polyfit_exact (x y : list Q) (deg : nat) : result (list Q) :=
  if decide (length x = 0%nat ∨ length x ≠ length y) then Err ValueError
  else
    let powers := rev (seq 0 (S deg)) in
    let normal_row := λ i : nat,
      ((λ j : nat, Qred (Qsum ((λ xi, Qpower xi (Z.of_nat (i + j))) <$> x))) <$> powers)
      ++ [Qred (Qsum (zip_with (λ xi yi, Qpower xi (Z.of_nat i) * yi)%Q x y))] in
    gauss_jordan (S deg) 0 [] (normal_row <$> powers) ≫= λ sol : list (list Q),
    Ok ((λ row : list Q, default 0%Q (last row)) <$> sol).

(** [2 (p - 1) / (p + 1)], the first term of the series of the logarithm
    in [(p - 1) / (p + 1)]. *)
Definition log_approx (p : Q) : Q := Qred (2 * (p - 1) / (p + 1)).

Definition numpy_exact : NumPy := {|
  np_log := log_approx;
  np_percentile := percentile_linear;
  np_polyfit := polyfit_exact;
|}.

(** The peak [find_peaks_single] makes of the cluster [cli] of significant
    trials: [sig] are the indices of the significant trials, [col] the S/N
    column.  The peak sits on a member of the cluster, no member has a
    higher S/N, and the other attributes are those of the column. *)
Definition peak_of_cluster (periods col : list Q) (sig : list nat) (d : Q)
    (iwidth : nat) (w : Z) (bins_avg : Q) (cli : list nat) (pk : Peak) : Prop :=
  (∃ m i, m ∈ cli ∧ sig !! m = Some i ∧
          periods !! i = Some (period pk) ∧ col !! i = Some (snr pk)) ∧
  (∀ m i s, m ∈ cli → sig !! m = Some i → col !! i = Some s → (s <= snr pk)%Q) ∧
  dm pk = d ∧ iw pk = iwidth ∧ width pk = w ∧
  ducy pk = fdiv (inject_Z w) bins_avg.

(** The statistics row of a segment, as [segment_stats] computes it from the
    S/N column: the three percentiles of the S/N values in
    [[istart, iend)], the spread, and the segment's mid period. *)
Definition stats_of_segment `{NumPy} (snrs : list Q) (b : Segment)
    (st : SegStats) : Prop :=
  let sample := py_slice snrs (istart b) (iend b) in
  np_percentile sample 25 = Ok (p25 st) ∧
  np_percentile sample 50 = Ok (median st) ∧
  np_percentile sample 75 = Ok (p75 st) ∧
  sigma st = ((p75 st - p25 st) / 1.349)%Q ∧
  stats_pmid st = pmid b ∧
  stats_logpmid st = logpmid b ∧
  (0 ≤ istart b ≤ iend b → iend b ≤ len snrs →
   length sample = Z.to_nat (iend b - istart b) ∧
   ∀ k, (k < Z.to_nat (iend b - istart b))%nat →
        sample !! k = snrs !! (Z.to_nat (istart b) + k)%nat).

(** The detection [find_peaks] makes of the cluster [cl] of pooled peaks:
    its peaks are the members of the cluster, and its own attributes are
    those of a member whose S/N no member exceeds. *)
Definition detection_of_cluster (all_peaks : list Peak) (cl : list nat)
    (det : Detection) : Prop :=
  Forall2 (λ ix p, all_peaks !! ix = Some p) cl (peaks det) ∧
  ∃ top, top ∈ peaks det ∧
    (∀ p, p ∈ peaks det → (snr p <= snr top)%Q) ∧
    period det = period top ∧ snr det = snr top ∧ dm det = dm top ∧
    iw det = iw top ∧ width det = width top ∧ ducy det = ducy top.

(** The grid breaks the invariant of its shape: as many S/N rows as period
    trials, as many S/N columns as width trials. *)
Definition shape_mismatch (pgram : Periodogram) : Prop :=
  nrows (snrs pgram) ≠ length (periods pgram) ∨
  ncols (snrs pgram) ≠ length (widths pgram).

(** ** Object identity: [Detection.__init__] on a store

    The arrays and the metadata dictionary of a periodogram are mutable
    objects.  To tell a copy from a shared object, the store maps
    locations to objects, and the attributes of a periodogram or of a
    detection hold locations.  A location stands for the data buffer of an
    array, so that a NumPy view has the location of its base. *)

Definition loc : Type := nat.

Inductive obj : Type :=
| ObjArray (a : list Q)
| ObjArray2 (a : ndarray2)
| ObjIntArray (a : list Z)
| ObjDict (d : gmap string Q).

Record PeriodogramRef : Type := {
  periods_ref : loc;
  snrs_ref : loc;
  widths_ref : loc;
  tobs_val : Q;
  metadata_ref : loc;
  bins_avg_val : Q;
}.

Record DetectionRef : Type := {
  det_peak : Peak;
  det_peaks : list Peak;
  period_trials_ref : loc;
  snr_trials_ref : loc;
  width_trials_ref : loc;
  det_metadata_ref : loc;
}.

Definition read_array (h : gmap loc obj) (l : loc) : option (list Q) :=
  match h !! l with
  | Some (ObjArray a) => Some a
  | _ => None
  end.

Definition read_array2 (h : gmap loc obj) (l : loc) : option ndarray2 :=
  match h !! l with
  | Some (ObjArray2 a) => Some a
  | _ => None
  end.

Definition read_int_array (h : gmap loc obj) (l : loc) : option (list Z) :=
  match h !! l with
  | Some (ObjIntArray a) => Some a
  | _ => None
  end.

Definition read_dict (h : gmap loc obj) (l : loc) : option (gmap string Q) :=
  match h !! l with
  | Some (ObjDict d) => Some d
  | _ => None
  end.

(** The periodogram a reference denotes in a store. *)
Definition load_pgram (h : gmap loc obj) (pg : PeriodogramRef)
  : option Periodogram :=
  ps ← read_array h (periods_ref pg);
  sn ← read_array2 h (snrs_ref pg);
  ws ← read_int_array h (widths_ref pg);
  md ← read_dict h (metadata_ref pg);
  Some {| periods := ps; snrs := sn; widths := ws; tobs := tobs_val pg;
          metadata := md; bins_avg := bins_avg_val pg |}.

(** The detection a reference denotes in a store. *)
Definition load_detection (h : gmap loc obj) (d : DetectionRef)
  : option Detection :=
  pt ← read_array h (period_trials_ref d);
  st ← read_array2 h (snr_trials_ref d);
  wt ← read_int_array h (width_trials_ref d);
  md ← read_dict h (det_metadata_ref d);
  Some {| as_peak := det_peak d; peaks := det_peaks d; period_trials := pt;
          snr_trials := st; width_trials := wt; det_metadata := md |}.

(** [Detection.__init__] on the store.  Indexing with an index array
    ([pgram.periods[period_slice_indices]],
    [pgram.snrs[period_slice_indices, :]]) allocates a new array; the basic
    slice [pgram.widths[:]] of an array is a view on the same buffer; and
    [self.metadata = pgram.metadata] binds the same dictionary. *)
Definition Detection_init_store (h : gmap loc obj) (pks : list Peak)
    (pg : PeriodogramRef) (period_slice_width : Q)
  : result (gmap loc obj * DetectionRef) :=
  pgram ← of_option ValueError (load_pgram h pg);
  det ← Detection_init pks pgram period_slice_width;
  let l1 := fresh (dom h) in
  let h1 := <[l1 := ObjArray (period_trials det)]> h in
  let l2 := fresh (dom h1) in
  let h2 := <[l2 := ObjArray2 (snr_trials det)]> h1 in
  Ok (h2, {| det_peak := as_peak det; det_peaks := peaks det;
             period_trials_ref := l1; snr_trials_ref := l2;
             width_trials_ref := widths_ref pg;
             det_metadata_ref := metadata_ref pg |}).

(** The objects of a periodogram. *)
Definition pgram_locs (pg : PeriodogramRef) : list loc :=
  [periods_ref pg; snrs_ref pg; widths_ref pg; metadata_ref pg].

(** No assignment to an object of the grid changes what the detection
    holds. *)
Definition owns_copies (h : gmap loc obj) (pg : PeriodogramRef)
    (d : DetectionRef) : Prop :=
  ∀ l o, l ∈ pgram_locs pg → load_detection (<[l := o]> h) d = load_detection h d.

(** ** Examples *)

Definition example_pgram : Periodogram := {|
  periods := [1; 2; 3; 4; 5; 6; 7; 8]%Q;
  snrs := {| ncols := 2;
             rows := [[1; 1]; [7; 1]; [8; 9]; [1; 1];
                      [1; 1]; [1; 1]; [1; 10]; [1; 1]]%Q |};
  widths := [1; 2];
  tobs := 100;
  metadata := {["dm" := 5%Q]};
  bins_avg := 100;
|}.

(** The eight one-trial segments of [example_pgram] for the default minimum
    segment width. *)
Definition example_boundaries : list Segment :=
  Eval vm_compute in
    match segment (H:=numpy_exact) (periods example_pgram) (tobs example_pgram)
            default_segment_dftbins_length with
    | Ok b => b
    | Err _ => []
    end.

Definition example_column : list Q := [1; 7; 8; 1; 1; 1; 1; 1]%Q.

Definition example_stats : list SegStats :=
  Eval vm_compute in
    match segment_stats (H:=numpy_exact) example_column example_boundaries with
    | Ok s => s
    | Err _ => []
    end.

Definition example_mask : list bool :=
  [false; true; true; false; false; false; false; false].

Definition example_all_peaks : list Peak :=
  Eval vm_compute in
    match pooled_peaks (H:=numpy_exact) cluster_1d example_pgram
            default_segment_dftbins_length 9 default_snr_min default_nsigma
            default_peak_clustering_radius default_polydeg with
    | Ok l => l
    | Err _ => []
    end.

(** A grid with two S/N columns for a single width trial. *)
Definition surplus_column_pgram : Periodogram := {|
  periods := [1; 2]%Q;
  snrs := {| ncols := 2; rows := [[1; 0]; [9; 0]]%Q |};
  widths := [3];
  tobs := 10;
  metadata := {["dm" := 5%Q]};
  bins_avg := 64;
|}.

(** The claim that [find_peaks] fails on every grid of a wrong shape. *)
Definition fails_on_shape_mismatch `{NumPy} (cluster_1d : Clustering)
    (pgram : Periodogram) : Prop :=
  shape_mismatch pgram →
  is_Err (find_peaks cluster_1d pgram default_segment_dftbins_length
            default_min_segments default_snr_min default_nsigma
            default_peak_clustering_radius default_polydeg
            default_period_slice_width).

(** A store with the four objects of a periodogram of three period trials
    and one width trial, and a peak at its second trial. *)
Definition example_store : gmap loc obj :=
  {[ 0%nat := ObjArray [1; 2; 4]%Q;
     1%nat := ObjArray2 {| ncols := 1; rows := [[1]; [9]; [1]]%Q |};
     2%nat := ObjIntArray [3];
     3%nat := ObjDict {["dm" := 5%Q]} ]}.

Definition example_pgram_ref : PeriodogramRef := {|
  periods_ref := 0%nat;
  snrs_ref := 1%nat;
  widths_ref := 2%nat;
  tobs_val := 8;
  metadata_ref := 3%nat;
  bins_avg_val := 64;
|}.

Definition example_peak : Peak := {|
  period := 2;
  snr := 9;
  dm := 5;
  iw := 0;
  width := 3;
  ducy := Some (3 # 64)%Q;
|}.

(** Index ranges of a segmentation. *)

Definition in_segment (s : Segment) (i : Z) : Prop := istart s ≤ i < iend s.

(** Each segment starts where the previous one ends. *)
Definition contiguous (segs : list Segment) : Prop :=
  ∀ k s1 s2, segs !! k = Some s1 → segs !! S k = Some s2 → iend s1 = istart s2.

(** No index lies in two different segments. *)
Definition non_overlapping (segs : list Segment) : Prop :=
  ∀ k1 k2 s1 s2 i,
    segs !! k1 = Some s1 → segs !! k2 = Some s2 →
    in_segment s1 i → in_segment s2 i → k1 = k2.

(** The union of the ranges is exactly [[0, n)]. *)
Definition covers (n : Z) (segs : list Segment) : Prop :=
  ∀ i, 0 ≤ i < n ↔ ∃ s, s ∈ segs ∧ in_segment s i.

(** Row [k] of the table [segment] returns, written from its index. *)
Definition segment_row_spec (periods : list Q) `{NumPy} (n nseg : Z)
    (k : nat) (s : Segment) : Prop :=
  istart s = Z.of_nat k * (n `div` nseg) ∧
  iend s = (if decide (S k = Z.to_nat nseg) then n
            else (Z.of_nat k + 1) * (n `div` nseg)) ∧
  imid s = (istart s + iend s) `div` 2 ∧
  periods !! Z.to_nat (imid s) = Some (pmid s) ∧
  logpmid s = np_log (pmid s).

(** ** Further properties: predicates *)

(** [pk] sits on a point of the grid: its width is the width trial of index
    [iw pk], its dispersion measure is the [dm] of the metadata, its duty
    cycle is [width / bins_avg], and its period and S/N are those of one
    period trial in the column [iw pk] of the S/N array. *)
Definition grid_peak (pgram : Periodogram) (pk : Peak) : Prop :=
  widths pgram !! iw pk = Some (width pk) ∧
  metadata pgram !! "dm" = Some (dm pk) ∧
  ducy pk = fdiv (inject_Z (width pk)) (bins_avg pgram) ∧
  ∃ i row, periods pgram !! i = Some (period pk) ∧
           rows (snrs pgram) !! i = Some row ∧
           row !! iw pk = Some (snr pk).

(** The trial of index [i] lies in the window of [Detection.__init__]: its
    DFT bin index and that of the detection are finite and less than half
    the slice width apart. *)
Definition in_window (pgram : Periodogram) (center_period period_slice_width : Q)
    (i : nat) : Prop :=
  ∃ p d c, periods pgram !! i = Some p ∧
           fdiv (tobs pgram) p = Some d ∧
           fdiv (tobs pgram) center_period = Some c ∧
           (Qabs (d - c) < period_slice_width / 2)%Q.

(** The indices [period_slice_indices] that [Detection.__init__] selects
    around the period [center_period]. *)
Definition window_indices (pgram : Periodogram)
    (center_period period_slice_width : Q) : list nat :=
  np_where (within_slice (fdiv (tobs pgram) center_period) period_slice_width
              <$> (fdiv (tobs pgram) <$> periods pgram)).

(** An instance of the kernels whose fit always raises and whose logarithm
    is constant: what a run that needs neither cannot tell from
    [numpy_exact]. *)
Definition numpy_without_fit : NumPy := {|
  np_log := λ _, 0%Q;
  np_percentile := percentile_linear;
  np_polyfit := λ _ _ _, Err ValueError;
|}.

(** ** Coordinates in SIGPROC's decimal format (reading/sigproc.py) *)

(** [np.sign] *)
Definition np_sign (f : Q) : Q :=
  match (f ?= 0)%Q with
  | Lt => (-1)%Q
  | Eq => 0%Q
  | Gt => 1%Q
  end.

(** [divmod(x, y)] on floats, for a positive [y]: the floor of the quotient
    and the remainder. *)
Definition float_divmod (x y : Q) : Q * Q :=
  let q := inject_Z (Qfloor (x / y)) in
  (q, (x - q * y)%Q).

Definition parse_float_coord (f : Q) : Q :=
  let sign := np_sign f in
  let x := Qabs f in
  let '(hh, x) := float_divmod x 10000 in
  let '(mm, ss) := float_divmod x 100 in
  (sign * (hh + mm / 60 + ss / 3600))%Q.

(** * Theorems *)

(** ** The result monad *)

Lemma result_mapM_Ok {A B} (f : A → result B) (l : list A) (bs : list B) :
  result_mapM f l = Ok bs ↔ Forall2 (λ a b, f a = Ok b) l bs.
Proof.
  revert bs. induction l as [|a l IH]; intros bs; simpl.
  - split.
    + intros [= <-]. constructor.
    + intros Hf. inversion Hf. reflexivity.
  - split.
    + destruct (f a) as [b|e] eqn:Hfa; simpl; [|discriminate].
      destruct (result_mapM f l) as [bs'|e] eqn:Hl; simpl; [|discriminate].
      intros [= <-]. constructor; [assumption|]. by apply IH.
    + intros Hf. inversion Hf as [|a' b l' bs' Hab Hrest]; subst.
      rewrite Hab. simpl. apply IH in Hrest. rewrite Hrest. reflexivity.
Qed.

Lemma result_mapM_total {A B} (f : A → result B) (l : list A) :
  Forall (λ a, is_Ok (f a)) l → is_Ok (result_mapM f l).
Proof.
  induction 1 as [|a l [b Hb] _ [bs Hbs]]; simpl.
  - by eexists.
  - rewrite Hb. simpl. rewrite Hbs. by eexists.
Qed.

(** ** Python primitives *)

Lemma py_range_length n : length (py_range n) = Z.to_nat n.
Proof. unfold py_range. by rewrite length_fmap, length_seq. Qed.

Lemma py_range_lookup n k :
  (k < Z.to_nat n)%nat → py_range n !! k = Some (Z.of_nat k).
Proof.
  intros Hk. unfold py_range. rewrite list_lookup_fmap.
  by rewrite lookup_seq_lt.
Qed.

Lemma py_index_Ok {A} (l : list A) (i : Z) :
  0 ≤ i < len l → ∃ a, py_index l i = Ok a ∧ l !! Z.to_nat i = Some a.
Proof.
  intros Hi. unfold py_index, len in *.
  destruct (Z.leb_spec 0 i); [|lia].
  destruct (lookup_lt_is_Some_2 l (Z.to_nat i)) as [a Ha]; [lia|].
  exists a. by rewrite Ha.
Qed.

Lemma py_index_last_Ok {A} (l : list A) :
  l ≠ [] → ∃ a, py_index l (-1) = Ok a ∧ last l = Some a.
Proof.
  intros Hl. unfold py_index, len.
  assert (0 < length l)%nat by (destruct l; simpl; [done|lia]).
  destruct (Z.leb_spec 0 (-1)); [lia|].
  destruct (Z.leb_spec 0 (Z.of_nat (length l) + -1)); [|lia].
  rewrite last_lookup.
  replace (Z.to_nat (Z.of_nat (length l) + -1)) with (pred (length l)) by lia.
  destruct (lookup_lt_is_Some_2 l (pred (length l))) as [a Ha]; [lia|].
  exists a. by rewrite Ha.
Qed.

(** Under [max(1, .)], truncation toward zero and the floor agree. *)
Lemma max1_trunc_floor (q : Q) : Z.max 1 (Qtrunc q) = Z.max 1 (Qfloor q).
Proof.
  destruct q as [a d]. unfold Qtrunc, Qfloor. simpl.
  destruct (Z.le_gt_cases 0 a) as [Ha|Ha].
  - by rewrite Z.quot_div_nonneg by lia.
  - assert (Z.quot a (Z.pos d) ≤ 0).
    { pose proof (Z.quot_pos (- a) (Z.pos d)) as Hq.
      rewrite Z.quot_opp_l in Hq by lia. lia. }
    assert (a `div` Z.pos d < 0) by (apply Z.div_lt_upper_bound; lia).
    lia.
Qed.

(** ** Segmentation *)

Lemma segment_boundaries_length n nseg :
  length (segment_boundaries n nseg) = Z.to_nat nseg.
Proof.
  unfold segment_boundaries, set_last. cbv zeta.
  destruct (last _); rewrite ?length_insert, length_fmap, py_range_length; done.
Qed.

Lemma segment_boundaries_lookup n nseg k :
  (k < Z.to_nat nseg)%nat →
  segment_boundaries n nseg !! k =
    Some (Z.of_nat k * (n `div` nseg),
          if decide (S k = Z.to_nat nseg) then n
          else (Z.of_nat k + 1) * (n `div` nseg)).
Proof.
  intros Hk. unfold segment_boundaries, set_last. cbv zeta.
  set (f := λ iseg : Z, (iseg * (n `div` nseg), (iseg + 1) * (n `div` nseg))).
  assert (Hlen : length (f <$> py_range nseg) = Z.to_nat nseg)
    by (by rewrite length_fmap, py_range_length).
  assert (Hlk : ∀ j, (j < Z.to_nat nseg)%nat →
                     (f <$> py_range nseg) !! j = Some (f (Z.of_nat j))).
  { intros j Hj. by rewrite list_lookup_fmap, py_range_lookup. }
  rewrite last_lookup, Hlen, Hlk by lia.
  case_decide as Hlast.
  - replace (pred (Z.to_nat nseg)) with k by lia.
    rewrite list_lookup_insert_eq by lia. reflexivity.
  - rewrite list_lookup_insert_ne by lia. by rewrite Hlk.
Qed.

Lemma fdiv_Some (a b : Q) : ¬ (b == 0)%Q → fdiv a b = Some (a / b)%Q.
Proof.
  intros Hb. unfold fdiv.
  destruct (Qeq_bool b 0) eqn:E; [|done].
  apply Qeq_bool_iff in E. contradiction.
Qed.

Lemma segment_nseg_Ok `{NumPy} (periods : list Q) (tobs sdl p0 plast : Q) :
  periods !! 0%nat = Some p0 → last periods = Some plast →
  ¬ (p0 == 0)%Q → ¬ (plast == 0)%Q → ¬ (sdl == 0)%Q →
  segment_nseg periods tobs sdl
  = Ok (Z.max 1 (Qfloor ((tobs / p0 - tobs / plast) / sdl))).
Proof.
  intros H0 Hl Hp0 Hpl Hsdl. unfold segment_nseg.
  assert (Hne : periods ≠ []) by (intros ->; discriminate).
  destruct (py_index_Ok periods 0) as (a & -> & Ha).
  { unfold len. destruct periods; [done|]. simpl length. lia. }
  destruct (py_index_last_Ok periods Hne) as (b & -> & Hb).
  change (Z.to_nat 0) with 0%nat in Ha.
  assert (a = p0) as -> by congruence. assert (b = plast) as -> by congruence.
  simpl. rewrite !fdiv_Some by done. simpl. rewrite fdiv_Some by done. simpl.
  by rewrite max1_trunc_floor.
Qed.

Lemma segment_rows_Ok `{NumPy} (periods : list Q) (nseg : Z) :
  periods ≠ [] → 1 ≤ nseg →
  ∃ segs,
    result_mapM (segment_row periods) (segment_boundaries (len periods) nseg)
    = Ok segs ∧
    length segs = Z.to_nat nseg ∧
    ∀ k s, segs !! k = Some s → segment_row_spec periods (len periods) nseg k s.
Proof.
  intros Hne Hnseg.
  assert (Hn : 1 ≤ len periods).
  { unfold len. destruct periods; [done|]. simpl length. lia. }
  set (n := len periods) in *.
  assert (Hrow : ∀ k b, segment_boundaries n nseg !! k = Some b →
            ∃ s, segment_row periods b = Ok s ∧ segment_row_spec periods n nseg k s).
  { intros k b Hb.
    assert (Hk : (k < Z.to_nat nseg)%nat).
    { apply lookup_lt_Some in Hb. by rewrite segment_boundaries_length in Hb. }
    rewrite segment_boundaries_lookup in Hb by done.
    injection Hb as <-.
    set (slen := n `div` nseg) in *.
    assert (Hslen : 0 ≤ slen ∧ nseg * slen ≤ n).
    { split; [apply Z.div_pos; lia|apply Z.mul_div_le; lia]. }
    unfold segment_row. simpl.
    match goal with |- context [py_index periods ?i] => set (im := i) end.
    assert (Him : 0 ≤ im < n).
    { subst im. case_decide.
      - assert (Z.of_nat k = nseg - 1) as -> by lia.
        assert ((nseg - 1) * slen < n) by nia.
        split; [apply Z.div_pos; nia|apply Z.div_lt_upper_bound; lia].
      - assert (Z.of_nat k + 1 ≤ nseg - 1) by lia.
        split; [apply Z.div_pos; nia|apply Z.div_lt_upper_bound; nia]. }
    destruct (py_index_Ok periods im Him) as (p & -> & Hp). simpl.
    eexists. split; [reflexivity|]. by repeat split. }
  destruct (result_mapM_total (segment_row periods) (segment_boundaries n nseg))
    as [segs Hsegs].
  { apply Forall_lookup. intros k b Hb.
    destruct (Hrow k b Hb) as (s & Hs & _). by exists s. }
  exists segs. split; [done|].
  apply result_mapM_Ok in Hsegs.
  split.
  - by rewrite <- (Forall2_length _ _ _ Hsegs), segment_boundaries_length.
  - intros k s Hs.
    destruct (Forall2_lookup_r _ _ _ _ _ Hsegs Hs) as (b & Hb & Hbs).
    destruct (Hrow k b Hb) as (s' & Hs' & Hspec). congruence.
Qed.

(** C4.  For a non-empty period sequence whose first and last periods are
    non-zero, and a non-zero minimum segment width (so that the divisions of
    the span are defined), [segment] returns a table of
    [max(1, floor(span / segment_dftbins_length))] segments, with
    [span = tobs / periods[0] - tobs / periods[-1]].  Their half-open index
    ranges are contiguous, pairwise disjoint, start at 0, cover exactly
    [[0, N)], and the last one ends at [N].  Neither monotonicity of the
    periods nor the sign of [tobs] is needed. *)
Theorem segment_partitions `{NumPy} (periods : list Q) (tobs sdl p0 plast : Q) :
  periods !! 0%nat = Some p0 → last periods = Some plast →
  ¬ (p0 == 0)%Q → ¬ (plast == 0)%Q → ¬ (sdl == 0)%Q →
  ∃ segs,
    segment periods tobs sdl = Ok segs ∧
    len segs = Z.max 1 (Qfloor ((tobs / p0 - tobs / plast) / sdl)) ∧
    contiguous segs ∧
    non_overlapping segs ∧
    covers (len periods) segs ∧
    (∃ s0, segs !! 0%nat = Some s0 ∧ istart s0 = 0) ∧
    (∃ sl, last segs = Some sl ∧ iend sl = len periods).
Proof.
  intros H0 Hl Hp0 Hpl Hsdl.
  assert (Hne : periods ≠ []) by (intros ->; discriminate).
  unfold segment.
  rewrite (segment_nseg_Ok periods tobs sdl p0 plast) by done.
  set (nseg := Z.max 1 _).
  assert (Hnseg : 1 ≤ nseg) by lia.
  destruct (segment_rows_Ok periods nseg Hne Hnseg) as (segs & Hsegs & Hlen & Hrows).
  exists segs. simpl. split; [exact Hsegs|].
  set (n := len periods) in *.
  assert (Hn : 1 ≤ n).
  { subst n. unfold len. destruct periods; [done|]. simpl length. lia. }
  set (slen := n `div` nseg) in *.
  assert (Hslen : 0 ≤ slen ∧ nseg * slen ≤ n ∧ n < nseg * (slen + 1)).
  { split; [apply Z.div_pos; lia|].
    split; [apply Z.mul_div_le; lia|].
    pose proof (Z.mul_succ_div_gt n nseg). unfold slen. lia. }
  assert (Hget : ∀ k, (k < Z.to_nat nseg)%nat → ∃ s, segs !! k = Some s).
  { intros k Hk. apply lookup_lt_is_Some_2. lia. }
  assert (Hbnd : ∀ k s, segs !! k = Some s →
            (k < Z.to_nat nseg)%nat ∧ istart s = Z.of_nat k * slen ∧
            istart s ≤ iend s ≤ n ∧
            (S k = Z.to_nat nseg → iend s = n) ∧
            (S k ≠ Z.to_nat nseg → iend s = (Z.of_nat k + 1) * slen)).
  { intros k s Hs. pose proof (lookup_lt_Some _ _ _ Hs) as Hk.
    destruct (Hrows k s Hs) as (Hst & Hen & _).
    split; [lia|]. split; [done|]. rewrite Hst, Hen.
    case_decide; (split; [nia|split; intros; [done || lia|done || lia]]). }
  split_and!.
  - unfold len. lia.
  - intros k s1 s2 Hs1 Hs2.
    destruct (Hbnd _ _ Hs1) as (_ & _ & _ & _ & He1).
    destruct (Hbnd _ _ Hs2) as (Hk2 & Hst2 & _).
    rewrite He1, Hst2 by lia. lia.
  - assert (Hlt : ∀ k1 k2 s1 s2 i, (k1 < k2)%nat →
              segs !! k1 = Some s1 → segs !! k2 = Some s2 →
              in_segment s1 i → in_segment s2 i → False).
    { intros k1 k2 s1 s2 i Hk Hs1 Hs2 [_ Hi1] [Hi2 _].
      destruct (Hbnd _ _ Hs1) as (_ & _ & _ & _ & He1).
      destruct (Hbnd _ _ Hs2) as (Hk2 & Hst2 & _).
      rewrite He1 in Hi1 by lia. rewrite Hst2 in Hi2. nia. }
    intros k1 k2 s1 s2 i Hs1 Hs2 Hi1 Hi2.
    destruct (Nat.lt_trichotomy k1 k2) as [Hk|[Hk|Hk]]; [|done|].
    + destruct (Hlt k1 k2 s1 s2 i Hk Hs1 Hs2 Hi1 Hi2).
    + destruct (Hlt k2 k1 s2 s1 i Hk Hs2 Hs1 Hi2 Hi1).
  - intros i. split.
    2:{ intros (s & Hs & Hi). apply list_elem_of_lookup_1 in Hs as [k Hs].
        destruct (Hbnd _ _ Hs) as (_ & Hst & Hle & _). unfold in_segment in Hi. nia. }
    intros Hi.
    assert (∃ k, (k < Z.to_nat nseg)%nat ∧ Z.of_nat k * slen ≤ i ∧
                 (S k = Z.to_nat nseg ∨ i < (Z.of_nat k + 1) * slen))
      as (k & Hk & Hlo & Hhi).
    { destruct (decide (slen = 0)) as [Hz|Hnz].
      - exists (pred (Z.to_nat nseg)). rewrite Hz. split; [lia|]. split; [lia|].
        left. lia.
      - pose proof (Z.mul_div_le i slen ltac:(lia)) as Hlo.
        pose proof (Z.mul_succ_div_gt i slen ltac:(lia)) as Hhi.
        assert (Hq : 0 ≤ i `div` slen) by (apply Z.div_pos; lia).
        destruct (Z.lt_ge_cases (i `div` slen) (nseg - 1)) as [Hlt|Hge].
        + exists (Z.to_nat (i `div` slen)). split; [lia|].
          rewrite Z2Nat.id by done. split; [lia|]. right. lia.
        + exists (pred (Z.to_nat nseg)). split; [lia|].
          split; [|left; lia].
          replace (Z.of_nat (pred (Z.to_nat nseg))) with (nseg - 1) by lia. nia. }
    destruct (Hget k Hk) as [s Hs]. exists s.
    split; [by eapply list_elem_of_lookup_2|].
    destruct (Hbnd _ _ Hs) as (_ & Hst & _ & He1 & He2).
    unfold in_segment. rewrite Hst. split; [done|].
    destruct (decide (S k = Z.to_nat nseg)) as [Hlast|Hnl].
    + rewrite (He1 Hlast). lia.
    + rewrite (He2 Hnl). destruct Hhi; [done|lia].
  - destruct (Hget 0%nat) as [s0 Hs0]; [lia|]. exists s0. split; [done|].
    destruct (Hbnd _ _ Hs0) as (_ & Hst & _). lia.
  - rewrite last_lookup, Hlen.
    destruct (Hget (pred (Z.to_nat nseg))) as [sl Hsl]; [lia|].
    exists sl. split; [done|].
    destruct (Hbnd _ _ Hsl) as (_ & _ & _ & He & _). apply He. lia.
Qed.

(** ** NumPy primitives *)

Lemma Qltb_lt (x y : Q) : Qltb x y = true ↔ (x < y)%Q.
Proof.
  unfold Qltb. rewrite Qlt_alt. destruct (x ?= y)%Q; split; congruence.
Qed.

Lemma Qltb_ge (x y : Q) : Qltb x y = false ↔ (y <= x)%Q.
Proof.
  rewrite <- not_true_iff_false, Qltb_lt. split.
  - apply Qnot_lt_le.
  - intros Hle Hlt. exact (Qlt_not_le _ _ Hlt Hle).
Qed.

Lemma of_option_Ok {A} (e : exn) (o : option A) (a : A) :
  of_option e o = Ok a ↔ o = Some a.
Proof. destruct o; simpl; split; congruence. Qed.

Lemma np_take_Ok {A} (a : list A) (indices : list nat) (l : list A) :
  np_take a indices = Ok l ↔ Forall2 (λ i x, a !! i = Some x) indices l.
Proof.
  unfold np_take. rewrite result_mapM_Ok.
  split; intros Hf; (eapply Forall2_impl; [exact Hf|]);
    intros i x; by rewrite of_option_Ok.
Qed.

Lemma np_take_total {A} (a : list A) (indices : list nat) :
  Forall (λ i, i < length a)%nat indices → is_Ok (np_take a indices).
Proof.
  intros Hi. apply result_mapM_total. eapply Forall_impl; [exact Hi|].
  intros i Hlt. simpl in Hlt. destruct (lookup_lt_is_Some_2 a i Hlt) as [x Hx].
  exists x. by rewrite Hx.
Qed.

Lemma np_where_from_elem (i j : nat) (mask : list bool) :
  j ∈ np_where_from i mask ↔ ∃ k, j = (i + k)%nat ∧ mask !! k = Some true.
Proof.
  revert i. induction mask as [|b mask IH]; intros i; simpl.
  - split; [by intros ?%elem_of_nil|by intros (k & _ & ?)].
  - rewrite elem_of_app, IH. split.
    + intros [Hj|(k & -> & Hk)].
      * destruct b; [|by apply elem_of_nil in Hj].
        apply list_elem_of_singleton in Hj as ->. exists 0%nat. split; [lia|done].
      * exists (S k). split; [lia|done].
    + intros ([|k] & -> & Hk); simpl in Hk.
      * injection Hk as ->. left. rewrite Nat.add_0_r. by apply list_elem_of_singleton.
      * right. exists k. split; [lia|done].
Qed.

Lemma np_where_elem (j : nat) (mask : list bool) :
  j ∈ np_where mask ↔ mask !! j = Some true.
Proof.
  unfold np_where. rewrite np_where_from_elem. split.
  - by intros (k & -> & Hk).
  - intros Hj. by exists j.
Qed.

Lemma np_where_lt (j : nat) (mask : list bool) :
  j ∈ np_where mask → (j < length mask)%nat.
Proof. rewrite np_where_elem. apply lookup_lt_Some. Qed.

(** Whatever the broadcasting, an index the comparison marks and at which
    the left operand has a value points at a value above some entry of the
    right operand. *)
Lemma np_greater_marked (a b : list Q) (mask : list bool) (i : nat) (s : Q) :
  np_greater a b = Ok mask → mask !! i = Some true → a !! i = Some s →
  ∃ t, t ∈ b ∧ (t < s)%Q.
Proof.
  unfold np_greater. intros Hg Hm Ha. case_decide as Hlen.
  - injection Hg as <-.
    apply lookup_zip_with_Some in Hm as (x & y & Hxy & Hx & Hy).
    assert (x = s) as -> by congruence. symmetry in Hxy.
    apply Qltb_lt in Hxy. exists y. split; [by eapply list_elem_of_lookup_2|done].
  - destruct a as [|x [|x' a]].
    + by rewrite lookup_nil in Ha.
    + injection Hg as <-. destruct i as [|i]; [|done]. injection Ha as ->.
      destruct b as [|y b]; [done|]. simpl in Hm.
      injection Hm as Hm. apply Qltb_lt in Hm.
      exists y. split; [by apply list_elem_of_here|done].
    + destruct b as [|y [|y' b]]; [done| |done].
      assert (mask = (λ x0, Qltb y x0) <$> x :: x' :: a) as -> by congruence.
      rewrite list_lookup_fmap, Ha in Hm. simpl in Hm.
      injection Hm as Hm. apply Qltb_lt in Hm.
      exists y. split; [by apply list_elem_of_here|done].
Qed.

(** With operands of one length the comparison is elementwise. *)
Lemma np_greater_same_length (a b : list Q) :
  length a = length b →
  ∃ mask, np_greater a b = Ok mask ∧ length mask = length a ∧
    ∀ i, mask !! i = Some true ↔
         ∃ s t, a !! i = Some s ∧ b !! i = Some t ∧ (t < s)%Q.
Proof.
  intros Hlen. unfold np_greater. rewrite decide_True by done.
  eexists. split; [done|]. split.
  - rewrite length_zip_with. lia.
  - intros i. rewrite lookup_zip_with_Some. split.
    + intros (s & t & Hst & Hs & Ht). symmetry in Hst. apply Qltb_lt in Hst. eauto.
    + intros (s & t & Hs & Ht & Hst). apply Qltb_lt in Hst. eauto.
Qed.

Lemma np_greater_not_broadcastable (a b : list Q) :
  length a ≠ length b → length a ≠ 1%nat → length b ≠ 1%nat →
  np_greater a b = Err ValueError.
Proof.
  intros Hab Ha Hb. unfold np_greater. rewrite decide_False by done.
  destruct a as [|x [|x' a]]; [|done|]; by destruct b as [|y [|y' b]].
Qed.

Lemma np_mask_Ok {A} (a : list A) (mask : list bool) :
  length mask = length a → ∃ l, np_mask a mask = Ok l.
Proof. intros Hlen. unfold np_mask. rewrite decide_True by done. by eexists. Qed.

Lemma argmax_from_spec (pre l : list Q) (best : Q) (ibest : nat) :
  (pre ++ l) !! ibest = Some best →
  (∀ x, x ∈ pre → (x <= best)%Q) →
  ∃ s, (pre ++ l) !! argmax_from best ibest (length pre) l = Some s ∧
       ∀ x, x ∈ pre ++ l → (x <= s)%Q.
Proof.
  revert pre best ibest. induction l as [|x l IH]; intros pre best ibest Hb Hmax; simpl.
  - exists best. split; [done|]. by rewrite app_nil_r.
  - destruct (Qltb best x) eqn:Hlt.
    + apply Qltb_lt in Hlt.
      destruct (IH (pre ++ [x]) x (length pre)) as (s & Hs & Hall).
      * rewrite <- app_assoc. simpl.
        by rewrite lookup_app_r, Nat.sub_diag by lia.
      * intros y [Hy|Hy%list_elem_of_singleton]%elem_of_app.
        -- apply Qlt_le_weak. eapply Qle_lt_trans; [by apply Hmax|done].
        -- subst. apply Qle_refl.
      * rewrite <- app_assoc, length_app in *. simpl in *.
        rewrite Nat.add_1_r in Hs. eauto.
    + apply Qltb_ge in Hlt.
      destruct (IH (pre ++ [x]) best ibest) as (s & Hs & Hall).
      * by rewrite <- app_assoc.
      * intros y [Hy|Hy%list_elem_of_singleton]%elem_of_app; [by apply Hmax|by subst].
      * rewrite <- app_assoc, length_app in *. simpl in *.
        rewrite Nat.add_1_r in Hs. eauto.
Qed.

Lemma np_argmax_spec (l : list Q) :
  l ≠ [] →
  ∃ i s, np_argmax l = Ok i ∧ l !! i = Some s ∧ ∀ x, x ∈ l → (x <= s)%Q.
Proof.
  destruct l as [|x l]; [done|]. intros _. simpl.
  destruct (argmax_from_spec [x] l x 0%nat) as (s & Hs & Hall).
  - done.
  - intros y ->%list_elem_of_singleton. apply Qle_refl.
  - exists (argmax_from x 0%nat 1%nat l), s. done.
Qed.

Lemma max_from_spec {A} (key : A → Q) (pre l : list A) (best : A) :
  best ∈ pre →
  (∀ x, x ∈ pre → (key x <= key best)%Q) →
  max_from key best l ∈ pre ++ l ∧
  ∀ x, x ∈ pre ++ l → (key x <= key (max_from key best l))%Q.
Proof.
  revert pre best. induction l as [|x l IH]; intros pre best Hb Hmax; simpl.
  - rewrite app_nil_r. done.
  - destruct (Qltb (key best) (key x)) eqn:Hlt.
    + apply Qltb_lt in Hlt.
      destruct (IH (pre ++ [x]) x) as (Hin & Hall).
      * apply elem_of_app. right. by apply list_elem_of_singleton.
      * intros y [Hy|Hy%list_elem_of_singleton]%elem_of_app.
        -- apply Qlt_le_weak. eapply Qle_lt_trans; [by apply Hmax|done].
        -- subst. apply Qle_refl.
      * by rewrite <- app_assoc in *.
    + apply Qltb_ge in Hlt.
      destruct (IH (pre ++ [x]) best) as (Hin & Hall).
      * apply elem_of_app. by left.
      * intros y [Hy|Hy%list_elem_of_singleton]%elem_of_app; [by apply Hmax|by subst].
      * by rewrite <- app_assoc in *.
Qed.

Lemma py_max_spec {A} (key : A → Q) (l : list A) :
  l ≠ [] →
  ∃ top, py_max key l = Ok top ∧ top ∈ l ∧ ∀ x, x ∈ l → (key x <= key top)%Q.
Proof.
  destruct l as [|x l]; [done|]. intros _. simpl.
  destruct (max_from_spec key [x] l x) as (Hin & Hall).
  - by apply list_elem_of_singleton.
  - intros y ->%list_elem_of_singleton. apply Qle_refl.
  - eauto.
Qed.

(** ** Threshold policies *)

Ltac step_result H :=
  match type of H with
  | context [mbind _ ?m] =>
      let E := fresh "E" in
      destruct m eqn:E; simpl in H; [|discriminate H]
  end.

Lemma polyval_trim_zeros_front (c : list Q) (x : Q) :
  (polyval (trim_zeros_front c) x == polyval c x)%Q.
Proof.
  unfold polyval.
  induction c as [|a c IH]; simpl; [reflexivity|].
  destruct (Qeq_bool a 0) eqn:Ha; [|reflexivity].
  apply Qeq_bool_iff in Ha. rewrite IH. clear IH.
  assert (Hgen : ∀ u v : Q, (u == v)%Q →
            (foldl (λ acc ci, acc * x + ci) u c == foldl (λ acc ci, acc * x + ci) v c)%Q).
  { induction c as [|b c IHc]; intros u v Huv; simpl; [done|].
    apply IHc. by rewrite Huv. }
  apply Hgen. rewrite Ha. ring.
Qed.

(** Stripping the leading zeros does not change the polynomial. *)
Lemma polyval_poly1d (c : list Q) (x : Q) : (polyval (poly1d c) x == polyval c x)%Q.
Proof.
  unfold poly1d. rewrite <- (polyval_trim_zeros_front c x).
  destruct (trim_zeros_front c); [|reflexivity].
  unfold polyval. simpl. ring.
Qed.

Lemma threshold_function_dynamic_Ok `{NumPy} (stats : list SegStats)
    (snr_min nsigma : Q) (polydeg : nat) (func : list Q → list Q) (polyco : list Q) :
  threshold_function_dynamic stats snr_min nsigma polydeg = Ok (func, polyco) ↔
  ∃ c, np_polyfit (stats_logpmid <$> stats)
         ((λ st, median st + nsigma * sigma st)%Q <$> stats) polydeg = Ok c ∧
       polyco = poly1d c ∧
       func = λ period, np_maximum (polyval polyco <$> (np_log <$> period)) snr_min.
Proof.
  unfold threshold_function_dynamic. split.
  - intros Hd. step_result Hd. injection Hd as <- <-. eauto.
  - intros (c & -> & -> & ->). reflexivity.
Qed.

(** What both policies guarantee of the threshold function they return: it
    maps an array of periods to an array of the same length, entry by
    entry, and no entry is below the floor. *)
Lemma select_threshold_spec `{NumPy} (stats : list SegStats)
    (boundaries : list Segment) (min_segments : Z) (snr_min nsigma : Q)
    (polydeg : nat) (tfunc : list Q → list Q) (polyco : list Q) :
  select_threshold stats boundaries min_segments snr_min nsigma polydeg
  = Ok (tfunc, polyco) →
  ∃ f : Q → Q, (∀ period, tfunc period = f <$> period) ∧ ∀ p, (snr_min <= f p)%Q.
Proof.
  unfold select_threshold. destruct (len boundaries <? min_segments).
  - intros [= <- <-]. exists (λ _, snr_min). split.
    + intros period. induction period as [|p period IH]; [done|].
      simpl in *. by rewrite IH.
    + intros _. apply Qle_refl.
  - intros (c & _ & -> & ->)%threshold_function_dynamic_Ok.
    exists (λ p, Qmax (polyval (poly1d c) (np_log p)) snr_min). split.
    + intros period. unfold np_maximum. by rewrite <- !list_fmap_compose.
    + intros p. apply Q.le_max_r.
Qed.

(** C5.  Whenever [threshold_function_dynamic] returns a threshold function
    and coefficients, then at every query period the function's value is
    the maximum of the returned polynomial evaluated at [log(period)] and
    of [snr_min], and so is at least [snr_min]. *)
Theorem dynamic_threshold_floor `{NumPy} (stats : list SegStats)
    (snr_min nsigma : Q) (polydeg : nat) (func : list Q → list Q)
    (polyco : list Q) :
  threshold_function_dynamic stats snr_min nsigma polydeg = Ok (func, polyco) →
  ∀ period : list Q,
    func period = (λ p, Qmax (polyval polyco (np_log p)) snr_min) <$> period ∧
    Forall (λ t, (snr_min <= t)%Q) (func period).
Proof.
  intros (c & _ & -> & ->)%threshold_function_dynamic_Ok period.
  assert (Heq : np_maximum (polyval (poly1d c) <$> (np_log <$> period)) snr_min
                = (λ p, Qmax (polyval (poly1d c) (np_log p)) snr_min) <$> period).
  { unfold np_maximum. by rewrite <- !list_fmap_compose. }
  split; [exact Heq|]. rewrite Heq.
  apply Forall_fmap, Forall_forall. intros p _. apply Q.le_max_r.
Qed.

(** ** The single-width peak finder *)

(** A successful run of [find_peaks_single], step by step. *)
Lemma find_peaks_single_Ok `{NumPy} (cluster_1d : Clustering)
    (pgram : Periodogram) (iwidth : nat) (boundaries : list Segment)
    (min_segments : Z) (snr_min nsigma peak_clustering_radius : Q)
    (polydeg : nat) (stats : list SegStats) (polyco threshold : list Q)
    (pks : list Peak) :
  find_peaks_single cluster_1d pgram iwidth boundaries min_segments snr_min
    nsigma peak_clustering_radius polydeg = Ok (stats, polyco, threshold, pks) ↔
  ∃ col w d tfunc mask,
    np_column (snrs pgram) iwidth = Ok col ∧
    widths pgram !! iwidth = Some w ∧
    metadata pgram !! "dm" = Some d ∧
    segment_stats col boundaries = Ok stats ∧
    select_threshold stats boundaries min_segments snr_min nsigma polydeg
      = Ok (tfunc, polyco) ∧
    threshold = tfunc (periods pgram) ∧
    np_greater col threshold = Ok mask ∧
    extract_peaks cluster_1d (periods pgram) (tobs pgram) col mask d iwidth w
      (bins_avg pgram) peak_clustering_radius = Ok pks.
Proof.
  unfold find_peaks_single. split.
  - intros Hf.
    step_result Hf. rename a into col.
    destruct (widths pgram !! iwidth) as [w|] eqn:Ew; simpl in Hf; [|discriminate].
    destruct (metadata pgram !! "dm") as [d|] eqn:Ed; simpl in Hf; [|discriminate].
    step_result Hf. rename a into stats'.
    step_result Hf. destruct a as [tfunc polyco'].
    step_result Hf. rename a into mask.
    step_result Hf. injection Hf as <- <- <- <-.
    exists col, w, d, tfunc, mask. done.
  - intros (col & w & d & tfunc & mask & -> & -> & -> & Hs & Ht & -> & Hg & He).
    simpl. rewrite Hs. simpl. rewrite Ht. simpl. rewrite Hg. simpl.
    rewrite He. reflexivity.
Qed.

(** C6.  In a successful run of [find_peaks_single], the coefficients and the
    threshold array are those of the static policy when the number of
    segments is strictly below [min_segments] (in particular at
    [min_segments - 1]), and those of the dynamic policy otherwise (in
    particular at [min_segments]).  The static policy returns the function
    that maps every array of periods to the constant [snr_min], and
    [polydeg + 1] zero coefficients. *)
Theorem threshold_policy_switch `{NumPy} (cluster_1d : Clustering)
    (pgram : Periodogram) (iwidth : nat) (boundaries : list Segment)
    (min_segments : Z) (snr_min nsigma peak_clustering_radius : Q)
    (polydeg : nat) (stats : list SegStats) (polyco threshold : list Q)
    (pks : list Peak) :
  find_peaks_single cluster_1d pgram iwidth boundaries min_segments snr_min
    nsigma peak_clustering_radius polydeg = Ok (stats, polyco, threshold, pks) →
  let static := threshold_function_static snr_min polydeg in
  (len boundaries < min_segments →
     select_threshold stats boundaries min_segments snr_min nsigma polydeg
     = Ok static) ∧
  (min_segments ≤ len boundaries →
     select_threshold stats boundaries min_segments snr_min nsigma polydeg
     = threshold_function_dynamic stats snr_min nsigma polydeg) ∧
  (len boundaries < min_segments →
     polyco = static.2 ∧ threshold = static.1 (periods pgram)) ∧
  (min_segments ≤ len boundaries →
     ∃ func, threshold_function_dynamic stats snr_min nsigma polydeg
             = Ok (func, polyco) ∧ threshold = func (periods pgram)) ∧
  (len boundaries = min_segments - 1 →
     polyco = static.2 ∧ threshold = static.1 (periods pgram)) ∧
  (len boundaries = min_segments →
     ∃ func, threshold_function_dynamic stats snr_min nsigma polydeg
             = Ok (func, polyco) ∧ threshold = func (periods pgram)) ∧
  (∀ period : list Q,
     length (static.1 period) = length period ∧
     ∀ t, t ∈ static.1 period → t = snr_min) ∧
  length static.2 = (polydeg + 1)%nat ∧
  (∀ c, c ∈ static.2 → c = 0%Q).
Proof.
  intros (col & w & d & tfunc & mask & _ & _ & _ & _ & Ht & -> & _)%find_peaks_single_Ok.
  cbv zeta.
  assert (Hstatic : len boundaries < min_segments →
            polyco = (threshold_function_static snr_min polydeg).2 ∧
            tfunc (periods pgram)
            = (threshold_function_static snr_min polydeg).1 (periods pgram)).
  { intros Hlt. unfold select_threshold in Ht.
    destruct (Z.ltb_spec (len boundaries) min_segments); [|lia].
    by injection Ht as <- <-. }
  assert (Hdynamic : min_segments ≤ len boundaries →
            ∃ func, threshold_function_dynamic stats snr_min nsigma polydeg
                    = Ok (func, polyco) ∧ tfunc (periods pgram) = func (periods pgram)).
  { intros Hge. unfold select_threshold in Ht.
    destruct (Z.ltb_spec (len boundaries) min_segments); [lia|]. eauto. }
  split_and!.
  - intros Hlt. unfold select_threshold.
    by destruct (Z.ltb_spec (len boundaries) min_segments); [|lia].
  - intros Hge. unfold select_threshold.
    by destruct (Z.ltb_spec (len boundaries) min_segments); [lia|].
  - exact Hstatic.
  - exact Hdynamic.
  - intros Heq. apply Hstatic. lia.
  - intros Heq. apply Hdynamic. lia.
  - intros period. simpl. split; [apply length_replicate|].
    intros t Ht'. by apply elem_of_replicate in Ht' as [-> _].
  - simpl. apply length_replicate.
  - intros c Hc. simpl in Hc. by apply elem_of_replicate in Hc as [-> _].
Qed.

Lemma np_argmax_Ok (l : list Q) (i : nat) :
  np_argmax l = Ok i → ∃ s, l !! i = Some s ∧ ∀ x, x ∈ l → (x <= s)%Q.
Proof.
  intros Hi. destruct (decide (l = [])) as [->|Hne]; [done|].
  destruct (np_argmax_spec l Hne) as (j & s & Hj & Hs & Hall).
  assert (j = i) as -> by congruence. eauto.
Qed.

Lemma cluster_peak_spec (periods col : list Q) (sig : list nat) (d : Q)
    (iwidth : nat) (w : Z) (bins_avg : Q) (cli : list nat) (pk : Peak) :
  cluster_peak periods col sig d iwidth w bins_avg cli = Ok pk →
  peak_of_cluster periods col sig d iwidth w bins_avg cli pk.
Proof.
  unfold cluster_peak. intros Hc.
  step_result Hc. rename a into peak_indices, E into Hpi.
  step_result Hc. rename a into periods_slice, E into Hps.
  step_result Hc. rename a into snrs_slice, E into Hss.
  step_result Hc. rename a into imax, E into Him.
  destruct (periods_slice !! imax) as [p|] eqn:Hp; simpl in Hc; [|discriminate].
  destruct (snrs_slice !! imax) as [s|] eqn:Hs; simpl in Hc; [|discriminate].
  injection Hc as <-.
  apply np_take_Ok in Hpi, Hps, Hss.
  apply np_argmax_Ok in Him as (s' & Hs' & Hall).
  assert (s' = s) as -> by congruence.
  unfold peak_of_cluster. simpl. split_and!; try done.
  - destruct (Forall2_lookup_r _ _ _ _ _ Hps Hp) as (i & Hi & Hpi').
    destruct (Forall2_lookup_r _ _ _ _ _ Hpi Hi) as (m & Hm & Hsig).
    destruct (Forall2_lookup_l _ _ _ _ _ Hss Hi) as (s2 & Hs2 & Hcol).
    assert (s2 = s) as -> by congruence.
    exists m, i. split_and!; try done. by eapply list_elem_of_lookup_2.
  - intros m i s2 Hm Hsig Hcol.
    apply list_elem_of_lookup_1 in Hm as [k Hk].
    destruct (Forall2_lookup_l _ _ _ _ _ Hpi Hk) as (i' & Hi' & Hsig').
    assert (i' = i) as -> by congruence.
    destruct (Forall2_lookup_l _ _ _ _ _ Hss Hi') as (s3 & Hs3 & Hcol').
    assert (s3 = s2) as -> by congruence.
    apply Hall. by eapply list_elem_of_lookup_2.
Qed.

Lemma cluster_peak_total (periods col : list Q) (sig : list nat) (d : Q)
    (iwidth : nat) (w : Z) (bins_avg : Q) (cli : list nat) :
  cli ≠ [] → Forall (λ m, m < length sig)%nat cli →
  Forall (λ i, i < length periods ∧ i < length col)%nat sig →
  is_Ok (cluster_peak periods col sig d iwidth w bins_avg cli).
Proof.
  intros Hne Hcli Hsig. unfold cluster_peak.
  destruct (np_take_total sig cli Hcli) as [peak_indices Hpi]. rewrite Hpi. simpl.
  apply np_take_Ok in Hpi.
  assert (Hin : Forall (λ i, i < length periods ∧ i < length col)%nat peak_indices).
  { apply Forall_forall. intros i Hi. apply list_elem_of_lookup_1 in Hi as [k Hk].
    destruct (Forall2_lookup_r _ _ _ _ _ Hpi Hk) as (m & _ & Hm).
    rewrite Forall_forall in Hsig. apply Hsig. by eapply list_elem_of_lookup_2. }
  destruct (np_take_total periods peak_indices) as [periods_slice Hps].
  { eapply Forall_impl; [exact Hin|]. by intros i [? ?]. }
  destruct (np_take_total col peak_indices) as [snrs_slice Hss].
  { eapply Forall_impl; [exact Hin|]. by intros i [? ?]. }
  rewrite Hps. simpl. rewrite Hss. simpl.
  apply np_take_Ok in Hps, Hss.
  pose proof (Forall2_length _ _ _ Hpi) as Hl1.
  pose proof (Forall2_length _ _ _ Hps) as Hl2.
  pose proof (Forall2_length _ _ _ Hss) as Hl3.
  assert (Hsne : snrs_slice ≠ []).
  { intros ->. destruct cli; [done|]. simpl in *. lia. }
  destruct (np_argmax_spec snrs_slice Hsne) as (imax & s & -> & Hs & _). simpl.
  pose proof (lookup_lt_Some _ _ _ Hs) as Hlt.
  destruct (lookup_lt_is_Some_2 periods_slice imax) as [p Hp]; [lia|].
  rewrite Hp, Hs. simpl. by eexists.
Qed.


(** Every peak of a successful extraction is the peak of one of the clusters
    the clustering returned, in order. *)
Lemma extract_peaks_spec (cluster_1d : Clustering) (periods : list Q) (tobs : Q)
    (col : list Q) (mask : list bool) (d : Q) (iwidth : nat) (w : Z)
    (bins_avg r : Q) (pks : list Peak) :
  extract_peaks cluster_1d periods tobs col mask d iwidth w bins_avg r = Ok pks →
  (np_where mask = [] ∧ pks = []) ∨
  ∃ sp, np_where mask ≠ [] ∧ np_mask periods mask = Ok sp ∧
        Forall2 (peak_of_cluster periods col (np_where mask) d iwidth w bins_avg)
          (cluster_1d (fdiv tobs <$> sp) r) pks.
Proof.
  unfold extract_peaks. cbv zeta. intros He.
  destruct (np_where mask) as [|i0 sig] eqn:Hsig.
  - left. split; [done|congruence].
  - right. step_result He. rename a into sp.
    exists sp. split_and!; try done.
    apply result_mapM_Ok in He.
    eapply Forall2_impl; [exact He|].
    intros cli pk. apply cluster_peak_spec.
Qed.

Lemma extract_peaks_total (cluster_1d : Clustering) (periods : list Q) (tobs : Q)
    (col : list Q) (mask : list bool) (d : Q) (iwidth : nat) (w : Z)
    (bins_avg r : Q) :
  length mask = length periods → length col = length periods →
  (∀ sp, np_mask periods mask = Ok sp →
         cluster_valid (length (np_where mask)) (cluster_1d (fdiv tobs <$> sp) r)) →
  is_Ok (extract_peaks cluster_1d periods tobs col mask d iwidth w bins_avg r).
Proof.
  intros Hm Hc Hvalid. unfold extract_peaks. cbv zeta.
  destruct (np_where mask) as [|i0 sig] eqn:Hsig; [by eexists|].
  destruct (np_mask_Ok periods mask Hm) as [sp Hsp]. rewrite Hsp. simpl.
  apply result_mapM_total.
  specialize (Hvalid sp Hsp). unfold cluster_valid in Hvalid.
  eapply Forall_impl; [exact Hvalid|]. intros cli [Hne Hlt]. simpl in *.
  apply cluster_peak_total; [done|done|].
  rewrite <- Hsig. apply Forall_forall. intros i Hi%np_where_lt. lia.
Qed.

Lemma np_column_length (a : ndarray2) (j : nat) (col : list Q) :
  np_column a j = Ok col → length col = nrows a.
Proof.
  unfold np_column, nrows. case_decide; [|done].
  intros Hc%result_mapM_Ok. symmetry. by eapply Forall2_length.
Qed.

(** C10.  Every peak of a successful run of [find_peaks_single] has an S/N
    strictly above an entry of the threshold array, every entry of which is
    at least [snr_min] under either policy; hence the S/N is strictly above
    [snr_min].  When the grid has one row per period trial, that entry is
    the threshold at the peak's own trial. *)
Theorem peaks_exceed_floor `{NumPy} (cluster_1d : Clustering)
    (pgram : Periodogram) (iwidth : nat) (boundaries : list Segment)
    (min_segments : Z) (snr_min nsigma peak_clustering_radius : Q)
    (polydeg : nat) (stats : list SegStats) (polyco threshold : list Q)
    (pks : list Peak) :
  find_peaks_single cluster_1d pgram iwidth boundaries min_segments snr_min
    nsigma peak_clustering_radius polydeg = Ok (stats, polyco, threshold, pks) →
  Forall (λ t, (snr_min <= t)%Q) threshold ∧
  Forall (λ pk, (snr_min < snr pk)%Q ∧
                ∃ t, t ∈ threshold ∧ (t < snr pk)%Q) pks ∧
  (nrows (snrs pgram) = length (periods pgram) →
   Forall (λ pk, ∃ i t, periods pgram !! i = Some (period pk) ∧
                        threshold !! i = Some t ∧ (t < snr pk)%Q) pks).
Proof.
  intros (col & w & d & tfunc & mask & Hcol & _ & _ & _ & Ht & -> & Hg & He)%find_peaks_single_Ok.
  destruct (select_threshold_spec _ _ _ _ _ _ _ _ Ht) as (f & Hf & Hfloor).
  assert (Hthr : Forall (λ t, (snr_min <= t)%Q) (tfunc (periods pgram))).
  { rewrite Hf. apply Forall_fmap, Forall_forall. intros p _. apply Hfloor. }
  split; [exact Hthr|].
  apply extract_peaks_spec in He as [[_ ->]|(sp & _ & _ & Hpk)].
  { split; [constructor|]. intros _. constructor. }
  assert (Hsig : ∀ pk, pk ∈ pks → ∃ i,
            mask !! i = Some true ∧ periods pgram !! i = Some (period pk) ∧
            col !! i = Some (snr pk)).
  { intros pk Hin. apply list_elem_of_lookup_1 in Hin as [k Hk].
    destruct (Forall2_lookup_r _ _ _ _ _ Hpk Hk) as (cli & _ & Hspec).
    destruct Hspec as ((m & i & _ & Hm & Hp & Hs) & _).
    exists i. split_and!; try done.
    apply np_where_elem. by eapply list_elem_of_lookup_2. }
  split.
  - apply Forall_forall. intros pk Hin.
    destruct (Hsig pk Hin) as (i & Hmi & _ & Hs).
    destruct (np_greater_marked _ _ _ _ _ Hg Hmi Hs) as (t & Hin' & Hlt).
    split; [|by eauto].
    rewrite Forall_forall in Hthr. eapply Qle_lt_trans; [by apply Hthr|done].
  - intros Hrows. apply Forall_forall. intros pk Hin.
    destruct (Hsig pk Hin) as (i & Hmi & Hp & Hs).
    destruct (np_greater_same_length col (tfunc (periods pgram)))
      as (mask' & Hg' & _ & Hiff).
    { rewrite (np_column_length _ _ _ Hcol), Hrows, Hf. by rewrite length_fmap. }
    assert (mask' = mask) as -> by congruence.
    apply Hiff in Hmi as (s & t & Hs' & Ht' & Hlt).
    assert (s = snr pk) as -> by congruence. eauto.
Qed.


(** C2.  Once the column, the width, the dispersion measure, the statistics,
    the threshold function and the significance mask are there, the column
    has one entry per period trial, and the clustering returns non-empty
    groups of indices of the significant trials: [find_peaks_single]
    returns, and its peak list pairs off, in order, with the clusters.  The
    peak of a cluster has the period and the S/N of a member of the cluster
    whose S/N no member exceeds, the [dm] of the metadata, the index and the
    value of the processed width, and the duty cycle [width / bins_avg].
    Without a significant trial there is no peak.  Two runs on the same
    inputs return the same result. *)
Theorem one_peak_per_cluster `{NumPy} (cluster_1d : Clustering)
    (pgram : Periodogram) (iwidth : nat) (boundaries : list Segment)
    (min_segments : Z) (snr_min nsigma peak_clustering_radius : Q)
    (polydeg : nat) (col : list Q) (w : Z) (d : Q) (stats : list SegStats)
    (tfunc : list Q → list Q) (polyco : list Q) (mask : list bool) :
  np_column (snrs pgram) iwidth = Ok col →
  widths pgram !! iwidth = Some w →
  metadata pgram !! "dm" = Some d →
  segment_stats col boundaries = Ok stats →
  select_threshold stats boundaries min_segments snr_min nsigma polydeg
    = Ok (tfunc, polyco) →
  length col = length (periods pgram) →
  np_greater col (tfunc (periods pgram)) = Ok mask →
  (∀ sp, np_mask (periods pgram) mask = Ok sp →
         cluster_valid (length (np_where mask))
           (cluster_1d (fdiv (tobs pgram) <$> sp) peak_clustering_radius)) →
  ∃ pks,
    find_peaks_single cluster_1d pgram iwidth boundaries min_segments snr_min
      nsigma peak_clustering_radius polydeg
    = Ok (stats, polyco, tfunc (periods pgram), pks) ∧
    (np_where mask = [] → pks = []) ∧
    (np_where mask ≠ [] →
     ∃ sp, np_mask (periods pgram) mask = Ok sp ∧
       Forall2
         (peak_of_cluster (periods pgram) col (np_where mask) d iwidth w
            (bins_avg pgram))
         (cluster_1d (fdiv (tobs pgram) <$> sp) peak_clustering_radius) pks) ∧
    (∀ run1 run2,
       run1 = find_peaks_single cluster_1d pgram iwidth boundaries min_segments
                snr_min nsigma peak_clustering_radius polydeg →
       run2 = find_peaks_single cluster_1d pgram iwidth boundaries min_segments
                snr_min nsigma peak_clustering_radius polydeg →
       run1 = run2).
Proof.
  intros Hcol Hw Hd Hs Ht Hlen Hg Hvalid.
  assert (Hmlen : length mask = length (periods pgram)).
  { destruct (select_threshold_spec _ _ _ _ _ _ _ _ Ht) as (f & Hf & _).
    destruct (np_greater_same_length col (tfunc (periods pgram)))
      as (mask' & Hg' & Hml & _).
    { rewrite Hlen, Hf. by rewrite length_fmap. }
    assert (mask' = mask) as -> by congruence. lia. }
  destruct (extract_peaks_total cluster_1d (periods pgram) (tobs pgram) col mask
              d iwidth w (bins_avg pgram) peak_clustering_radius Hmlen Hlen Hvalid)
    as [pks Hpks].
  exists pks. split_and!.
  - apply find_peaks_single_Ok. exists col, w, d, tfunc, mask. done.
  - intros Hnil. apply extract_peaks_spec in Hpks as [[_ ->]|(sp & Hne & _)]; done.
  - intros Hne. apply extract_peaks_spec in Hpks as [[Hnil _]|(sp & _ & Hsp & Hf)];
      [done|eauto].
  - by intros run1 run2 -> ->.
Qed.

(** ** Segment statistics and the fit *)

Lemma py_slice_in_range {A} (l : list A) (s e : Z) :
  0 ≤ s ≤ e → e ≤ len l →
  length (py_slice l s e) = Z.to_nat (e - s) ∧
  ∀ k, (k < Z.to_nat (e - s))%nat →
       py_slice l s e !! k = l !! (Z.to_nat s + k)%nat.
Proof.
  intros Hse He. unfold py_slice, slice_bound. cbv zeta.
  destruct (Z.ltb_spec s 0); [lia|]. destruct (Z.ltb_spec e 0); [lia|].
  rewrite !Z.min_l by lia. unfold len in He. split.
  - rewrite length_take, length_drop. lia.
  - intros k Hk. rewrite lookup_take_lt by lia. by rewrite lookup_drop.
Qed.

(** C7.  In a successful run of [segment_stats], the row of every segment
    holds the 25th, 50th and 75th percentiles of the S/N values at the
    indices [[istart, iend)] and the spread [(p75 - p25) / 1.349]; and a
    successful [threshold_function_dynamic] has called [np.polyfit], NumPy's
    least-squares polynomial fit, with degree [polydeg] on the abscissas
    [logpmid] of the segments and the ordinates [median + nsigma * sigma],
    and thresholds with the polynomial of the coefficients it got, taken at
    [log(period)]. *)
Theorem segment_stats_and_fit `{NumPy} (snrs : list Q)
    (boundaries : list Segment) (stats : list SegStats) (snr_min nsigma : Q)
    (polydeg : nat) (func : list Q → list Q) (polyco : list Q) :
  segment_stats snrs boundaries = Ok stats →
  threshold_function_dynamic stats snr_min nsigma polydeg = Ok (func, polyco) →
  Forall2 (stats_of_segment snrs) boundaries stats ∧
  ∃ c,
    np_polyfit (logpmid <$> boundaries)
      ((λ st, median st + nsigma * sigma st)%Q <$> stats) polydeg = Ok c ∧
    polyco = poly1d c ∧
    (∀ x, (polyval polyco x == polyval c x)%Q) ∧
    ∀ period,
      func period = (λ p, Qmax (polyval polyco (np_log p)) snr_min) <$> period.
Proof.
  intros Hs Hd.
  assert (Hrows : Forall2 (stats_of_segment snrs) boundaries stats).
  { apply result_mapM_Ok in Hs. eapply Forall2_impl; [exact Hs|].
    intros b st Hrow. unfold segment_stats_row in Hrow. cbv zeta in Hrow.
    step_result Hrow. step_result Hrow. step_result Hrow.
    injection Hrow as <-. unfold stats_of_segment. simpl.
    split_and!; try done. apply py_slice_in_range. }
  split; [exact Hrows|].
  assert (Hx : stats_logpmid <$> stats = logpmid <$> boundaries).
  { clear Hs Hd. induction Hrows as [|b st bs sts Hb _ IH]; [done|].
    destruct Hb as (_ & _ & _ & _ & _ & Hl & _).
    by rewrite !fmap_cons, Hl, IH. }
  apply threshold_function_dynamic_Ok in Hd as (c & Hc & -> & ->).
  exists c. rewrite <- Hx. split_and!; try done.
  - intros x. apply polyval_poly1d.
  - intros period. unfold np_maximum. by rewrite <- !list_fmap_compose.
Qed.

(** ** Detections *)

Lemma Detection_init_Ok (pks : list Peak) (pgram : Periodogram)
    (period_slice_width : Q) :
  pks ≠ [] → nrows (snrs pgram) = length (periods pgram) →
  ∃ det, Detection_init pks pgram period_slice_width = Ok det ∧
    peaks det = pks ∧ as_peak det ∈ pks ∧
    (∀ p, p ∈ pks → (snr p <= snr det)%Q) ∧
    width_trials det = widths pgram ∧ det_metadata det = metadata pgram.
Proof.
  intros Hne Hrows. unfold Detection_init.
  destruct (py_max_spec snr pks Hne) as (top & -> & Hin & Hmax). simpl.
  set (idx := np_where _).
  assert (Hidx : Forall (λ i, i < length (periods pgram))%nat idx).
  { apply Forall_forall. intros i Hi%np_where_lt.
    by rewrite !length_fmap in Hi. }
  destruct (np_take_total (periods pgram) idx Hidx) as [pt ->]. simpl.
  unfold np_take_rows.
  destruct (np_take_total (rows (snrs pgram)) idx) as [rs ->].
  { unfold nrows in Hrows. by rewrite Hrows. }
  simpl. eexists. split; [reflexivity|]. done.
Qed.

Lemma cluster_valid_nil (clusters : list (list nat)) :
  cluster_valid 0 clusters → clusters = [].
Proof.
  destruct clusters as [|[|i g] clusters]; [done| |].
  - intros Hv. apply Forall_cons in Hv as [[? _] _]. done.
  - intros Hv. apply Forall_cons in Hv as [[_ Hlt] _].
    apply Forall_cons in Hlt as [? _]. lia.
Qed.

(** C1.  When the first stage of [find_peaks] has pooled the peaks of all
    width trials, the grid has one row per period trial, and the clustering
    returns non-empty groups of indices of pooled peaks: [find_peaks]
    returns, and its detections pair off, in order, with the clusters.  The
    peaks of a detection are the members of its cluster, and its period,
    S/N, dispersion measure, width index, width and duty cycle are those of
    a member whose S/N no member exceeds.  Without a pooled peak there is no
    detection. *)
Theorem one_detection_per_cluster `{NumPy} (cluster_1d : Clustering)
    (pgram : Periodogram) (segment_dftbins_length : Q) (min_segments : Z)
    (snr_min nsigma peak_clustering_radius : Q) (polydeg : nat)
    (period_slice_width : Q) (all_peaks : list Peak) :
  pooled_peaks cluster_1d pgram segment_dftbins_length min_segments snr_min
    nsigma peak_clustering_radius polydeg = Ok all_peaks →
  nrows (snrs pgram) = length (periods pgram) →
  cluster_valid (length all_peaks)
    (cluster_1d (peaks_dbi pgram all_peaks) peak_clustering_radius) →
  ∃ dets,
    find_peaks cluster_1d pgram segment_dftbins_length min_segments snr_min
      nsigma peak_clustering_radius polydeg period_slice_width = Ok dets ∧
    Forall2 (detection_of_cluster all_peaks)
      (cluster_1d (peaks_dbi pgram all_peaks) peak_clustering_radius) dets ∧
    (all_peaks = [] → dets = []).
Proof.
  intros Hpool Hrows Hvalid. unfold find_peaks. rewrite Hpool. simpl.
  set (clusters := cluster_1d _ _) in *.
  assert (Hdet : ∀ cl, cl ∈ clusters → ∃ det,
            cluster_detection pgram all_peaks period_slice_width cl = Ok det ∧
            detection_of_cluster all_peaks cl det).
  { intros cl Hcl. unfold cluster_valid in Hvalid.
    rewrite Forall_forall in Hvalid. destruct (Hvalid cl Hcl) as [Hne Hlt].
    unfold cluster_detection.
    destruct (np_take_total all_peaks cl Hlt) as [peak_group Hpg].
    rewrite Hpg. simpl. apply np_take_Ok in Hpg.
    assert (Hgne : peak_group ≠ []).
    { intros ->. apply Forall2_length in Hpg. by destruct cl. }
    destruct (Detection_init_Ok peak_group pgram period_slice_width Hgne Hrows)
      as (det & -> & Hpeaks & Hin & Hmax & _).
    exists det. split; [done|]. unfold detection_of_cluster.
    rewrite Hpeaks. split; [done|]. exists (as_peak det). done. }
  destruct (result_mapM_total (cluster_detection pgram all_peaks period_slice_width)
              clusters) as [dets Hdets].
  { apply Forall_forall. intros cl Hcl.
    destruct (Hdet cl Hcl) as (det & Hd & _). by exists det. }
  exists dets. split; [done|]. apply result_mapM_Ok in Hdets. split.
  - apply Forall2_same_length_lookup. split; [by eapply Forall2_length|].
    intros k cl det Hcl Hk.
    destruct (Forall2_lookup_l _ _ _ _ _ Hdets Hcl) as (det' & Hk' & Hcd).
    assert (det' = det) as -> by congruence.
    destruct (Hdet cl) as (det2 & Hd2 & Hspec); [by eapply list_elem_of_lookup_2|].
    congruence.
  - intros ->. simpl in Hvalid. apply cluster_valid_nil in Hvalid.
    rewrite Hvalid in Hdets. by inversion Hdets.
Qed.

(** ** Shape mismatches *)

Lemma not_Ok_is_Err {A} (r : result A) : (∀ a, r ≠ Ok a) → is_Err r.
Proof. destruct r as [a|e]; [intros Hn; by destruct (Hn a)|by exists e]. Qed.

Lemma find_peaks_loop_Err `{NumPy} (cluster_1d : Clustering)
    (pgram : Periodogram) (boundaries : list Segment) (min_segments : Z)
    (snr_min nsigma peak_clustering_radius : Q) (polydeg : nat)
    (iwidths : list nat) (all_peaks : list Peak) (iwidth : nat) :
  iwidth ∈ iwidths →
  is_Err (find_peaks_single cluster_1d pgram iwidth boundaries min_segments
            snr_min nsigma peak_clustering_radius polydeg) →
  is_Err (find_peaks_loop cluster_1d pgram boundaries min_segments snr_min
            nsigma peak_clustering_radius polydeg iwidths all_peaks).
Proof.
  intros Hin [e He]. revert all_peaks.
  induction iwidths as [|j iwidths IH]; intros all_peaks.
  { by apply elem_of_nil in Hin. }
  simpl.
  destruct (find_peaks_single cluster_1d pgram j boundaries min_segments snr_min
              nsigma peak_clustering_radius polydeg)
    as [[[[stats polyco] threshold] pks]|e'] eqn:Hj; simpl; [|by eexists].
  apply elem_of_cons in Hin as [->|Hin]; [congruence|]. by apply IH.
Qed.

Lemma find_peaks_single_missing_column `{NumPy} (cluster_1d : Clustering)
    (pgram : Periodogram) (iwidth : nat) (boundaries : list Segment)
    (min_segments : Z) (snr_min nsigma peak_clustering_radius : Q)
    (polydeg : nat) :
  (ncols (snrs pgram) ≤ iwidth)%nat →
  find_peaks_single cluster_1d pgram iwidth boundaries min_segments snr_min
    nsigma peak_clustering_radius polydeg = Err IndexError.
Proof.
  intros Hge. unfold find_peaks_single, np_column.
  by rewrite decide_False by lia.
Qed.

Lemma find_peaks_single_row_mismatch `{NumPy} (cluster_1d : Clustering)
    (pgram : Periodogram) (iwidth : nat) (boundaries : list Segment)
    (min_segments : Z) (snr_min nsigma peak_clustering_radius : Q)
    (polydeg : nat) :
  nrows (snrs pgram) ≠ length (periods pgram) →
  nrows (snrs pgram) ≠ 1%nat → length (periods pgram) ≠ 1%nat →
  is_Err (find_peaks_single cluster_1d pgram iwidth boundaries min_segments
            snr_min nsigma peak_clustering_radius polydeg).
Proof.
  intros Hne Hr Hp. apply not_Ok_is_Err. intros [[[stats polyco] threshold] pks].
  intros (col & w & d & tfunc & mask & Hcol & _ & _ & _ & Ht & -> & Hg & _)%find_peaks_single_Ok.
  destruct (select_threshold_spec _ _ _ _ _ _ _ _ Ht) as (f & Hf & _).
  apply np_column_length in Hcol.
  rewrite np_greater_not_broadcastable in Hg; [done|..];
    rewrite ?Hf, ?length_fmap; lia.
Qed.

(** C8, as the code has it.  [find_peaks] has no check of the shape of the
    grid; on two kinds of mismatch it fails all the same.  With more width trials
    than S/N columns it fails (at the latest on the access to the first
    missing column).  With at least one width trial, and numbers of S/N
    rows and of period trials that differ and are both other than 1, it
    fails (at the latest on the comparison of the column with the
    threshold array, which NumPy cannot broadcast). *)
Theorem find_peaks_shape_errors `{NumPy} (cluster_1d : Clustering)
    (pgram : Periodogram) (segment_dftbins_length : Q) (min_segments : Z)
    (snr_min nsigma peak_clustering_radius : Q) (polydeg : nat)
    (period_slice_width : Q) :
  (ncols (snrs pgram) < length (widths pgram))%nat ∨
  (widths pgram ≠ [] ∧ nrows (snrs pgram) ≠ length (periods pgram) ∧
   nrows (snrs pgram) ≠ 1%nat ∧ length (periods pgram) ≠ 1%nat) →
  is_Err (find_peaks cluster_1d pgram segment_dftbins_length min_segments
            snr_min nsigma peak_clustering_radius polydeg period_slice_width).
Proof.
  intros Hshape.
  assert (Hpool : is_Err (pooled_peaks cluster_1d pgram segment_dftbins_length
                            min_segments snr_min nsigma peak_clustering_radius
                            polydeg)).
  { unfold pooled_peaks.
    destruct (segment _ _ _) as [boundaries|e]; simpl; [|by eexists].
    destruct Hshape as [Hcols|(Hw & Hne & Hr & Hp)].
    - apply (find_peaks_loop_Err _ _ _ _ _ _ _ _ _ _ (ncols (snrs pgram))).
      + apply elem_of_seq. lia.
      + exists IndexError. by apply find_peaks_single_missing_column.
    - apply (find_peaks_loop_Err _ _ _ _ _ _ _ _ _ _ 0%nat).
      + apply elem_of_seq. destruct (widths pgram); [done|]. simpl. lia.
      + by apply find_peaks_single_row_mismatch. }
  destruct Hpool as [e He]. unfold find_peaks. rewrite He. by exists e.
Qed.

(** ** Copies and shared objects of a detection *)

Lemma read_array_insert_ne (h : gmap loc obj) (l l' : loc) (o : obj) :
  l ≠ l' → read_array (<[l := o]> h) l' = read_array h l'.
Proof. intros Hne. unfold read_array. by rewrite lookup_insert_ne. Qed.

Lemma read_array2_insert_ne (h : gmap loc obj) (l l' : loc) (o : obj) :
  l ≠ l' → read_array2 (<[l := o]> h) l' = read_array2 h l'.
Proof. intros Hne. unfold read_array2. by rewrite lookup_insert_ne. Qed.

Lemma read_int_array_insert_ne (h : gmap loc obj) (l l' : loc) (o : obj) :
  l ≠ l' → read_int_array (<[l := o]> h) l' = read_int_array h l'.
Proof. intros Hne. unfold read_int_array. by rewrite lookup_insert_ne. Qed.

Lemma read_dict_insert_ne (h : gmap loc obj) (l l' : loc) (o : obj) :
  l ≠ l' → read_dict (<[l := o]> h) l' = read_dict h l'.
Proof. intros Hne. unfold read_dict. by rewrite lookup_insert_ne. Qed.

Lemma read_int_array_dom (h : gmap loc obj) (l : loc) (a : list Z) :
  read_int_array h l = Some a → l ∈ dom h.
Proof.
  unfold read_int_array. intros Hr. apply elem_of_dom.
  destruct (h !! l); [by eexists|done].
Qed.

Lemma read_dict_dom (h : gmap loc obj) (l : loc) (d : gmap string Q) :
  read_dict h l = Some d → l ∈ dom h.
Proof.
  unfold read_dict. intros Hr. apply elem_of_dom.
  destruct (h !! l); [by eexists|done].
Qed.

Lemma read_array_dom (h : gmap loc obj) (l : loc) (a : list Q) :
  read_array h l = Some a → l ∈ dom h.
Proof.
  unfold read_array. intros Hr. apply elem_of_dom.
  destruct (h !! l); [by eexists|done].
Qed.

Lemma read_array2_dom (h : gmap loc obj) (l : loc) (a : ndarray2) :
  read_array2 h l = Some a → l ∈ dom h.
Proof.
  unfold read_array2. intros Hr. apply elem_of_dom.
  destruct (h !! l); [by eexists|done].
Qed.

(** C9, as the code has it.  The constructor computes on the store what
    [Detection_init] computes on values.  The period-trial window and the
    S/N sub-grid of the detection are new objects: they are at locations
    the store did not have, so whatever happens afterwards to the objects
    that existed before, those of the grid among them, the detection reads
    the same window and the same sub-grid.  The metadata of the detection
    is the dictionary of the grid itself, not a copy of it. *)
Theorem detection_copies_window (h : gmap loc obj) (pks : list Peak)
    (pg : PeriodogramRef) (period_slice_width : Q) (h' : gmap loc obj)
    (d : DetectionRef) :
  Detection_init_store h pks pg period_slice_width = Ok (h', d) →
  ∃ pgram det,
    load_pgram h pg = Some pgram ∧
    Detection_init pks pgram period_slice_width = Ok det ∧
    load_detection h' d = Some det ∧
    (∀ l, l ∈ pgram_locs pg → l ∈ dom h) ∧
    (period_trials_ref d ∉ dom h) ∧
    (snr_trials_ref d ∉ dom h) ∧
    (∀ h'' : gmap loc obj,
       (∀ l, l ∉ dom h → h'' !! l = h' !! l) →
       read_array h'' (period_trials_ref d) = Some (period_trials det) ∧
       read_array2 h'' (snr_trials_ref d) = Some (snr_trials det)) ∧
    det_metadata_ref d = metadata_ref pg.
Proof.
  unfold Detection_init_store. intros Hi.
  destruct (load_pgram h pg) as [pgram|] eqn:Hload; simpl in Hi; [|discriminate].
  destruct (Detection_init pks pgram period_slice_width) as [det|e] eqn:Hdet;
    simpl in Hi; [|discriminate].
  injection Hi as <- <-.
  set (l1 := fresh (dom h)).
  set (h1 := <[l1 := ObjArray (period_trials det)]> h).
  set (l2 := fresh (dom h1)).
  assert (Hl1 : l1 ∉ dom h) by apply is_fresh.
  assert (Hl2 : l2 ∉ dom h1) by apply is_fresh.
  assert (Hl2' : l2 ≠ l1 ∧ l2 ∉ dom h).
  { subst h1. rewrite dom_insert_L in Hl2. set_solver. }
  destruct Hl2' as [Hne Hl2h].
  unfold load_pgram in Hload.
  destruct (read_array h (periods_ref pg)) as [ps|] eqn:Hps; [|done].
  destruct (read_array2 h (snrs_ref pg)) as [sn|] eqn:Hsn; [|done].
  destruct (read_int_array h (widths_ref pg)) as [ws|] eqn:Hws; [|done].
  destruct (read_dict h (metadata_ref pg)) as [md|] eqn:Hmd; [|done].
  simpl in Hload. injection Hload as <-.
  pose proof (read_array_dom _ _ _ Hps) as Dps.
  pose proof (read_array2_dom _ _ _ Hsn) as Dsn.
  pose proof (read_int_array_dom _ _ _ Hws) as Dws.
  pose proof (read_dict_dom _ _ _ Hmd) as Dmd.
  assert (Hr1 : read_array (<[l2 := ObjArray2 (snr_trials det)]> h1) l1
                = Some (period_trials det)).
  { rewrite read_array_insert_ne by done. unfold read_array, h1.
    by rewrite lookup_insert_eq. }
  assert (Hr2 : read_array2 (<[l2 := ObjArray2 (snr_trials det)]> h1) l2
                = Some (snr_trials det)).
  { unfold read_array2. by rewrite lookup_insert_eq. }
  eexists _, det. split_and!; try done.
  - unfold load_detection. simpl. rewrite Hr1, Hr2. simpl. unfold h1.
    rewrite !read_int_array_insert_ne, Hws by (intros ->; done). simpl.
    rewrite !read_dict_insert_ne, Hmd by (intros ->; done). simpl.
    unfold Detection_init in Hdet. simpl in Hdet.
    step_result Hdet. step_result Hdet. step_result Hdet.
    by injection Hdet as <-.
  - intros l Hl. unfold pgram_locs in Hl.
    repeat (apply elem_of_cons in Hl as [->|Hl]; [done|]).
    by apply elem_of_nil in Hl.
  - intros h'' Hagree. simpl. unfold read_array, read_array2.
    rewrite !Hagree by done. split; [apply Hr1|apply Hr2].
Qed.

(** ** The reference clustering meets the contract *)

Lemma split_runs_mjoin (x : list (option Q)) (r : Q) (prev : nat)
    (cur rest : list nat) :
  mjoin (split_runs x r prev cur rest) = cur ++ rest.
Proof.
  revert prev cur. induction rest as [|i rest IH]; intros prev cur; simpl.
  - done.
  - destruct (gap_ge _ _ r); simpl; rewrite IH; [done|].
    by rewrite <- app_assoc.
Qed.

Lemma split_runs_nonempty (x : list (option Q)) (r : Q) (prev : nat)
    (cur rest : list nat) :
  cur ≠ [] → Forall (λ g, g ≠ []) (split_runs x r prev cur rest).
Proof.
  revert prev cur. induction rest as [|i rest IH]; intros prev cur Hne; simpl.
  - by repeat constructor.
  - destruct (gap_ge _ _ r).
    + constructor; [done|]. by apply IH.
    + apply IH. by destruct cur.
Qed.

(** The groups of the reference clustering are non-empty and, put end to
    end, are a permutation of the indices of the array. *)
Lemma cluster_1d_partition (x : list (option Q)) (r : Q) :
  mjoin (cluster_1d x r) ≡ₚ seq 0 (length x) ∧
  Forall (λ g, g ≠ []) (cluster_1d x r).
Proof.
  unfold cluster_1d.
  assert (Hperm : argsort x ≡ₚ seq 0 (length x))
    by apply merge_sort_Permutation.
  destruct (argsort x) as [|i rest]; simpl.
  - split; [done|constructor].
  - rewrite split_runs_mjoin. split; [done|]. by apply split_runs_nonempty.
Qed.

Lemma cluster_1d_valid (x : list (option Q)) (r : Q) :
  cluster_valid (length x) (cluster_1d x r).
Proof.
  destruct (cluster_1d_partition x r) as [Hperm Hne].
  unfold cluster_valid. apply Forall_forall. intros g Hg.
  split; [by rewrite Forall_forall in Hne; apply Hne|].
  apply Forall_forall. intros i Hi.
  assert (Hin : i ∈ mjoin (cluster_1d x r)).
  { apply list_elem_of_join. eauto. }
  rewrite Hperm in Hin. apply elem_of_seq in Hin. lia.
Qed.

(** ** The theorems at work on the examples *)

Lemma segment_partitions_witness :
  ∃ segs,
    segment (H:=numpy_exact) (periods example_pgram) 100 10 = Ok segs ∧
    len segs = Z.max 1 (Qfloor ((100 / 1 - 100 / 8) / 10)) ∧
    contiguous segs ∧
    non_overlapping segs ∧
    covers (len (periods example_pgram)) segs ∧
    (∃ s0, segs !! 0%nat = Some s0 ∧ istart s0 = 0) ∧
    (∃ sl, last segs = Some sl ∧ iend sl = len (periods example_pgram)).
Proof.
  apply (segment_partitions (H:=numpy_exact) (periods example_pgram) 100 10 1 8);
    first [reflexivity | (intros Hz; vm_compute in Hz; discriminate Hz)].
Defined.

Lemma dynamic_threshold_floor_witness :
  ∃ func polyco,
    threshold_function_dynamic (H:=numpy_exact) example_stats 6.5 6.5 2
    = Ok (func, polyco) ∧
    ∀ period : list Q,
      func period
      = (λ p, Qmax (polyval polyco (np_log (NumPy:=numpy_exact) p)) 6.5) <$> period ∧
      Forall (λ t, (6.5 <= t)%Q) (func period).
Proof.
  destruct (threshold_function_dynamic (H:=numpy_exact) example_stats 6.5 6.5 2)
    as [[func polyco]|e] eqn:E; [|vm_compute in E; discriminate E].
  exists func, polyco. split; [reflexivity|].
  exact (dynamic_threshold_floor (H:=numpy_exact) example_stats 6.5 6.5 2
           func polyco E).
Defined.

Lemma threshold_policy_switch_witness :
  (∃ stats polyco threshold pks,
     find_peaks_single (H:=numpy_exact) cluster_1d example_pgram 0
       example_boundaries 9 6.5 6.5 0.20 2 = Ok (stats, polyco, threshold, pks) ∧
     polyco = [0; 0; 0]%Q ∧
     threshold = replicate 8 6.5%Q) ∧
  (∃ stats polyco threshold pks func,
     find_peaks_single (H:=numpy_exact) cluster_1d example_pgram 0
       example_boundaries 8 6.5 6.5 0.20 2 = Ok (stats, polyco, threshold, pks) ∧
     threshold_function_dynamic (H:=numpy_exact) stats 6.5 6.5 2
     = Ok (func, polyco) ∧
     threshold = func (periods example_pgram)).
Proof.
  split.
  - destruct (find_peaks_single (H:=numpy_exact) cluster_1d example_pgram 0
                example_boundaries 9 6.5 6.5 0.20 2)
      as [[[[stats polyco] threshold] pks]|e] eqn:E;
      [|vm_compute in E; discriminate E].
    exists stats, polyco, threshold, pks. split; [reflexivity|].
    destruct (threshold_policy_switch (H:=numpy_exact) cluster_1d example_pgram 0
                example_boundaries 9 6.5 6.5 0.20 2 stats polyco threshold pks E)
      as (_ & _ & _ & _ & Hstatic & _).
    apply Hstatic. reflexivity.
  - destruct (find_peaks_single (H:=numpy_exact) cluster_1d example_pgram 0
                example_boundaries 8 6.5 6.5 0.20 2)
      as [[[[stats polyco] threshold] pks]|e] eqn:E;
      [|vm_compute in E; discriminate E].
    destruct (threshold_policy_switch (H:=numpy_exact) cluster_1d example_pgram 0
                example_boundaries 8 6.5 6.5 0.20 2 stats polyco threshold pks E)
      as (_ & _ & _ & _ & _ & Hdynamic & _).
    destruct (Hdynamic eq_refl) as (func & Hf & Ht).
    exists stats, polyco, threshold, pks, func.
    split; [reflexivity|]. split; [exact Hf|exact Ht].
Defined.

Lemma segment_stats_and_fit_witness :
  ∃ func polyco,
    segment_stats (H:=numpy_exact) example_column example_boundaries
    = Ok example_stats ∧
    threshold_function_dynamic (H:=numpy_exact) example_stats 6.5 6.5 2
    = Ok (func, polyco) ∧
    Forall2 (stats_of_segment (H:=numpy_exact) example_column)
      example_boundaries example_stats ∧
    ∃ c,
      np_polyfit (NumPy:=numpy_exact) (logpmid <$> example_boundaries)
        ((λ st, median st + 6.5 * sigma st)%Q <$> example_stats) 2 = Ok c ∧
      polyco = poly1d c.
Proof.
  destruct (threshold_function_dynamic (H:=numpy_exact) example_stats 6.5 6.5 2)
    as [[func polyco]|e] eqn:E; [|vm_compute in E; discriminate E].
  exists func, polyco.
  assert (Hs : segment_stats (H:=numpy_exact) example_column example_boundaries
               = Ok example_stats) by (vm_compute; reflexivity).
  destruct (segment_stats_and_fit (H:=numpy_exact) example_column
              example_boundaries example_stats 6.5 6.5 2 func polyco Hs E)
    as (Hrows & c & Hc & Hp & _).
  split; [exact Hs|]. split; [reflexivity|]. split; [exact Hrows|].
  exists c. split; [exact Hc|exact Hp].
Defined.

Lemma peaks_exceed_floor_witness :
  ∃ stats polyco threshold pk1 pk2,
    find_peaks_single (H:=numpy_exact) cluster_1d example_pgram 0
      example_boundaries 8 6.5 6.5 0.20 2
    = Ok (stats, polyco, threshold, [pk1; pk2]) ∧
    (6.5 < snr pk1)%Q ∧ (6.5 < snr pk2)%Q.
Proof.
  destruct (find_peaks_single (H:=numpy_exact) cluster_1d example_pgram 0
              example_boundaries 8 6.5 6.5 0.20 2)
    as [[[[stats polyco] threshold] pks]|e] eqn:E;
    [|vm_compute in E; discriminate E].
  destruct (peaks_exceed_floor (H:=numpy_exact) cluster_1d example_pgram 0
              example_boundaries 8 6.5 6.5 0.20 2 stats polyco threshold pks E)
    as (_ & Hpk & _).
  vm_compute in E. injection E as <- <- <- <-.
  apply Forall_cons in Hpk as [[H1 _] Hpk].
  apply Forall_cons in Hpk as [[H2 _] _].
  eexists _, _, _, _, _. split; [reflexivity|]. split; [exact H1|exact H2].
Defined.


Lemma one_peak_per_cluster_witness :
  ∃ pk1 pk2,
    find_peaks_single (H:=numpy_exact) cluster_1d example_pgram 0
      example_boundaries 9 6.5 6.5 0.20 2
    = Ok (example_stats, [0; 0; 0]%Q, replicate 8 6.5%Q, [pk1; pk2]) ∧
    period pk1 = 3%Q ∧ snr pk1 = 8%Q ∧ period pk2 = 2%Q ∧ snr pk2 = 7%Q.
Proof.
  destruct (one_peak_per_cluster (H:=numpy_exact) cluster_1d example_pgram 0
              example_boundaries 9 6.5 6.5 0.20 2 example_column 1 5
              example_stats (threshold_function_static 6.5 2).1
              (threshold_function_static 6.5 2).2 example_mask)
    as (pks & Hrun & _); try reflexivity.
  { intros sp Hsp. vm_compute in Hsp. injection Hsp as <-.
    refine (bool_decide_unpack _ _). vm_compute. exact I. }
  vm_compute in Hrun. injection Hrun as <-.
  eexists _, _. split; [vm_compute; reflexivity|]. done.
Defined.

Lemma one_detection_per_cluster_witness :
  ∃ det1 det2 det3,
    find_peaks (H:=numpy_exact) cluster_1d example_pgram
      default_segment_dftbins_length 9 default_snr_min default_nsigma
      default_peak_clustering_radius default_polydeg default_period_slice_width
    = Ok [det1; det2; det3] ∧
    Forall2 (detection_of_cluster example_all_peaks)
      (cluster_1d (peaks_dbi example_pgram example_all_peaks)
         default_peak_clustering_radius) [det1; det2; det3].
Proof.
  destruct (one_detection_per_cluster (H:=numpy_exact) cluster_1d example_pgram
              default_segment_dftbins_length 9 default_snr_min default_nsigma
              default_peak_clustering_radius default_polydeg
              default_period_slice_width example_all_peaks)
    as (dets & Hrun & Hdets & _).
  - vm_compute. reflexivity.
  - reflexivity.
  - refine (bool_decide_unpack _ _). vm_compute. exact I.
  - assert (Hlen : length dets = 3%nat).
    { apply Forall2_length in Hdets. rewrite <- Hdets. vm_compute. reflexivity. }
    destruct dets as [|det1 [|det2 [|det3 [|det4 dets]]]]; try discriminate Hlen.
    exists det1, det2, det3. split; [exact Hrun|exact Hdets].
Defined.

Lemma find_peaks_shape_errors_witness :
  is_Err (find_peaks (H:=numpy_exact) cluster_1d
            {| periods := [1; 2]%Q;
               snrs := {| ncols := 1; rows := [[1]; [9]]%Q |};
               widths := [3; 5]; tobs := 10; metadata := {["dm" := 5%Q]};
               bins_avg := 64 |}
            default_segment_dftbins_length default_min_segments default_snr_min
            default_nsigma default_peak_clustering_radius default_polydeg
            default_period_slice_width).
Proof.
  apply (find_peaks_shape_errors (H:=numpy_exact)). left. simpl. lia.
Defined.

(** C8 fails on the code: two S/N columns for one width trial go unnoticed,
    and [find_peaks] returns a detection. *)
Lemma find_peaks_ignores_surplus_column :
  shape_mismatch surplus_column_pgram ∧
  ¬ fails_on_shape_mismatch (H:=numpy_exact) cluster_1d surplus_column_pgram ∧
  ∃ det,
    find_peaks (H:=numpy_exact) cluster_1d surplus_column_pgram
      default_segment_dftbins_length default_min_segments default_snr_min
      default_nsigma default_peak_clustering_radius default_polydeg
      default_period_slice_width = Ok [det] ∧
    period det = 2%Q ∧ snr det = 9%Q.
Proof.
  assert (Hm : shape_mismatch surplus_column_pgram).
  { right. simpl. lia. }
  split; [exact Hm|]. split.
  - intros Hfail. destruct (Hfail Hm) as [e He]. vm_compute in He. discriminate He.
  - eexists. split; [vm_compute; reflexivity|]. done.
Qed.

Lemma detection_copies_window_witness :
  ∃ h' d det,
    Detection_init_store example_store [example_peak] example_pgram_ref 1
    = Ok (h', d) ∧
    load_detection h' d = Some det ∧
    period_trials det = [2%Q] ∧
    ∀ o, read_array (<[periods_ref example_pgram_ref := o]> h')
           (period_trials_ref d) = Some [2%Q].
Proof.
  destruct (Detection_init_store example_store [example_peak] example_pgram_ref 1)
    as [[h' d]|e] eqn:E; [|vm_compute in E; discriminate E].
  destruct (detection_copies_window example_store [example_peak]
              example_pgram_ref 1 h' d E)
    as (pgram & det & Hload & Hinit & Hdet & Hlocs & Hfresh1 & _ & Hframe & _).
  assert (Hpt : period_trials det = [2%Q]).
  { vm_compute in Hload. injection Hload as <-.
    vm_compute in Hinit. by injection Hinit as <-. }
  exists h', d, det. split_and!; try done.
  intros o. rewrite <- Hpt. apply Hframe.
  intros l Hl. apply lookup_insert_ne. intros <-. apply Hl, Hlocs.
  apply list_elem_of_here.
Defined.

(** C9 fails on the code: the detection holds the metadata dictionary of the
    grid, so an assignment to [pgram.metadata['dm']] shows through the
    detection. *)
Lemma detection_shares_metadata :
  ∃ h' d,
    Detection_init_store example_store [example_peak] example_pgram_ref 1
    = Ok (h', d) ∧
    ¬ owns_copies h' example_pgram_ref d.
Proof.
  eexists _, _. split; [vm_compute; reflexivity|].
  intros Hown.
  specialize (Hown 3%nat (ObjDict {["dm" := 99%Q]})).
  assert (Hin : 3%nat ∈ pgram_locs example_pgram_ref).
  { unfold pgram_locs. simpl. set_solver. }
  specialize (Hown Hin). vm_compute in Hown. discriminate Hown.
Qed.

(** * Further properties *)

(** ** More on the segmentation *)

Lemma fdiv_None (a b : Q) : (b == 0)%Q → fdiv a b = None.
Proof.
  intros Hb. unfold fdiv. apply Qeq_bool_iff in Hb. by rewrite Hb.
Qed.

Lemma py_index_nil {A} (i : Z) : py_index (@nil A) i = Err IndexError.
Proof.
  unfold py_index, len. simpl. by repeat case_match.
Qed.

(** A successful [segment], row by row. *)
Lemma segment_Ok_rows `{NumPy} (periods : list Q) (tobs sdl : Q)
    (segs : list Segment) :
  segment periods tobs sdl = Ok segs →
  ∃ nseg, 1 ≤ nseg ∧ segment_nseg periods tobs sdl = Ok nseg ∧
    periods ≠ [] ∧ length segs = Z.to_nat nseg ∧
    ∀ k s, segs !! k = Some s → segment_row_spec periods (len periods) nseg k s.
Proof.
  unfold segment. intros Hs.
  destruct (segment_nseg periods tobs sdl) as [nseg|e] eqn:Hn; [|done].
  simpl in Hs.
  assert (Hne : periods ≠ []).
  { intros ->. unfold segment_nseg in Hn. by rewrite py_index_nil in Hn. }
  assert (Hge : 1 ≤ nseg).
  { unfold segment_nseg in Hn.
    destruct (py_index periods 0); [|done]. simpl in Hn.
    destruct (py_index periods (-1)); [|done]. simpl in Hn.
    destruct (py_int _); [|done]. simpl in Hn. injection Hn as <-. lia. }
  destruct (segment_rows_Ok periods nseg Hne Hge) as (segs' & Hsegs' & Hlen & Hrows).
  assert (segs' = segs) as -> by congruence.
  exists nseg. done.
Qed.




(** X2.  The segments of [segment] are equal-sized but for the last: every
    segment before the last holds [N // nseg] trials, and the last one holds
    these plus the remainder [N mod nseg]. *)
Theorem segment_sizes `{NumPy} (periods : list Q) (tobs sdl : Q)
    (segs : list Segment) :
  segment periods tobs sdl = Ok segs →
  let n := len periods in
  let slen := n `div` len segs in
  1 ≤ len segs ∧
  ∀ k s, segs !! k = Some s →
    ((S k < length segs)%nat → iend s - istart s = slen) ∧
    (S k = length segs →
       iend s - istart s = slen + n `mod` len segs ∧
       slen ≤ iend s - istart s < slen + len segs).
Proof.
  intros Hs. destruct (segment_Ok_rows _ _ _ _ Hs) as (nseg & Hge & _ & _ & Hlen & Hrows).
  cbv zeta. assert (Hnseg : len segs = nseg) by (unfold len; lia).
  rewrite Hnseg. split; [done|]. intros k s Hk.
  destruct (Hrows k s Hk) as (Hst & Hen & _).
  pose proof (Z.div_mod (len periods) nseg ltac:(lia)) as Hdm.
  pose proof (Z.mod_pos_bound (len periods) nseg ltac:(lia)) as Hmod.
  rewrite Hst, Hen. split; intros Hlast; case_decide; try lia.
Qed.

(** X3.  The mid index of every segment is [(istart + iend) // 2], a valid
    index of the period array, not below [istart], and inside the segment
    when the segment is not empty; [pmid] is the period at that index and
    [logpmid] its logarithm. *)
Theorem segment_mid_trial `{NumPy} (periods : list Q) (tobs sdl : Q)
    (segs : list Segment) :
  segment periods tobs sdl = Ok segs →
  ∀ s, s ∈ segs →
    imid s = (istart s + iend s) `div` 2 ∧
    0 ≤ imid s < len periods ∧
    istart s ≤ imid s ∧
    (istart s < iend s → imid s < iend s) ∧
    periods !! Z.to_nat (imid s) = Some (pmid s) ∧
    logpmid s = np_log (pmid s).
Proof.
  intros Hs s Hin. apply list_elem_of_lookup_1 in Hin as [k Hk].
  destruct (segment_Ok_rows _ _ _ _ Hs) as (nseg & Hge & _ & Hne & Hlen & Hrows).
  destruct (Hrows k s Hk) as (Hst & Hen & Hmid & Hp & Hl).
  pose proof (lookup_lt_Some _ _ _ Hk) as Hklt.
  pose proof (lookup_lt_Some _ _ _ Hp) as Hplt.
  assert (Hslen : 0 ≤ len periods `div` nseg) by (apply Z.div_pos; unfold len; lia).
  assert (Hle : istart s ≤ iend s).
  { rewrite Hst, Hen. case_decide; [|nia].
    pose proof (Z.mul_div_le (len periods) nseg ltac:(lia)). nia. }
  assert (H0 : 0 ≤ istart s) by (rewrite Hst; nia).
  assert (0 ≤ imid s) by (rewrite Hmid; apply Z.div_pos; lia).
  split_and!; try done.
  - unfold len. lia.
  - rewrite Hmid. apply Z.div_le_lower_bound; lia.
  - intros Hlt. rewrite Hmid. apply Z.div_lt_upper_bound; lia.
Qed.

(** X4.  When the span is less than two minimum segment widths (in
    particular when it is negative, the periods being in decreasing order
    of DFT bin), [segment] returns a single segment: the whole axis
    [[0, N)], with mid index [N // 2]. *)
Theorem segment_single `{NumPy} (periods : list Q) (tobs sdl p0 plast : Q) :
  periods !! 0%nat = Some p0 → last periods = Some plast →
  ¬ (p0 == 0)%Q → ¬ (plast == 0)%Q → ¬ (sdl == 0)%Q →
  ((tobs / p0 - tobs / plast) / sdl < 2)%Q →
  ∃ s, segment periods tobs sdl = Ok [s] ∧
       istart s = 0 ∧ iend s = len periods ∧ imid s = len periods `div` 2.
Proof.
  intros H0 Hl Hp0 Hpl Hsdl Hspan.
  assert (Hne : periods ≠ []) by (intros ->; discriminate).
  assert (Hn : Z.max 1 (Qfloor ((tobs / p0 - tobs / plast) / sdl)) = 1).
  { assert (Qfloor ((tobs / p0 - tobs / plast) / sdl) < 2); [|lia].
    apply Z.lt_nge. intros Hge.
    assert (Hq : (inject_Z 2 <= (tobs / p0 - tobs / plast) / sdl)%Q).
    { eapply Qle_trans; [|apply Qfloor_le]. rewrite <- Zle_Qle. exact Hge. }
    apply (Qlt_not_le _ _ Hspan). exact Hq. }
  unfold segment. rewrite (segment_nseg_Ok periods tobs sdl p0 plast) by done.
  rewrite Hn. simpl.
  destruct (segment_rows_Ok periods 1 Hne ltac:(lia)) as (segs & Hsegs & Hlen & Hrows).
  destruct segs as [|s [|s' segs]]; [done| |done].
  exists s. split; [done|].
  destruct (Hrows 0%nat s eq_refl) as (Hst & Hen & Hmid & _).
  rewrite decide_True in Hen by done. rewrite Hmid, Hst, Hen.
  split_and!; [lia|done|f_equal; lia].
Qed.

(** X5.  When [segment] returns more segments than there are period
    trials, the segment length is 0: every segment before the last is the
    empty range [[0, 0)] with mid index 0, and the last one is the whole
    axis. *)
Theorem segment_more_than_trials `{NumPy} (periods : list Q) (tobs sdl : Q)
    (segs : list Segment) :
  segment periods tobs sdl = Ok segs →
  len periods < len segs →
  ∀ k s, segs !! k = Some s →
    ((S k < length segs)%nat → istart s = 0 ∧ iend s = 0 ∧ imid s = 0) ∧
    (S k = length segs → istart s = 0 ∧ iend s = len periods).
Proof.
  intros Hs Hlt k s Hk.
  destruct (segment_Ok_rows _ _ _ _ Hs) as (nseg & Hge & _ & Hne & Hlen & Hrows).
  destruct (Hrows k s Hk) as (Hst & Hen & Hmid & _).
  assert (Hz : len periods `div` nseg = 0).
  { apply Z.div_small. unfold len in *. lia. }
  rewrite Hz in *. rewrite Hmid, Hst, Hen.
  split; intros Hlast; case_decide; try lia. by rewrite !Z.mul_0_r.
Qed.

(** ** More on the single-width peak finder *)

Lemma np_column_lookup (a : ndarray2) (j : nat) (col : list Q) (i : nat) (s : Q) :
  np_column a j = Ok col → col !! i = Some s →
  ∃ row, rows a !! i = Some row ∧ row !! j = Some s.
Proof.
  unfold np_column. case_decide; [|done].
  intros Hc%result_mapM_Ok Hs.
  destruct (Forall2_lookup_r _ _ _ _ _ Hc Hs) as (row & Hrow & Hj).
  apply of_option_Ok in Hj. eauto.
Qed.

(** The peaks of a successful run, one by one. *)
Lemma find_peaks_single_peaks `{NumPy} (cluster_1d : Clustering)
    (pgram : Periodogram) (iwidth : nat) (boundaries : list Segment)
    (min_segments : Z) (snr_min nsigma peak_clustering_radius : Q)
    (polydeg : nat) (stats : list SegStats) (polyco threshold : list Q)
    (pks : list Peak) :
  find_peaks_single cluster_1d pgram iwidth boundaries min_segments snr_min
    nsigma peak_clustering_radius polydeg = Ok (stats, polyco, threshold, pks) →
  Forall (λ pk, iw pk = iwidth ∧ grid_peak pgram pk ∧ (snr_min < snr pk)%Q) pks.
Proof.
  intros (col & w & d & tfunc & mask & Hcol & Hw & Hd & _ & Ht & -> & Hg & He)%find_peaks_single_Ok.
  destruct (select_threshold_spec _ _ _ _ _ _ _ _ Ht) as (f & Hf & Hfloor).
  apply extract_peaks_spec in He as [[_ ->]|(sp & _ & _ & Hpk)]; [constructor|].
  apply Forall_forall. intros pk Hin.
  apply list_elem_of_lookup_1 in Hin as [k Hk].
  destruct (Forall2_lookup_r _ _ _ _ _ Hpk Hk) as (cli & _ & Hspec).
  destruct Hspec as ((m & i & _ & Hm & Hp & Hs) & _ & Hdm & Hiw & Hwd & Hdu).
  assert (Hmi : mask !! i = Some true).
  { apply np_where_elem. by eapply list_elem_of_lookup_2. }
  destruct (np_greater_marked _ _ _ _ _ Hg Hmi Hs) as (t & Hin' & Hlt).
  destruct (np_column_lookup _ _ _ _ _ Hcol Hs) as (row & Hrow & Hj).
  split; [done|]. split.
  - unfold grid_peak. rewrite Hiw, Hwd, Hdm. split_and!; try done. eauto.
  - rewrite Hf in Hin'. apply list_elem_of_fmap in Hin' as (p & -> & _).
    eapply Qle_lt_trans; [apply Hfloor|done].
Qed.

(** X6.  The lookups at the head of [find_peaks_single]: a width index
    beyond the S/N columns raises [IndexError]; so does one beyond the
    width trials; a metadata dictionary without the key [dm] raises
    [KeyError], whatever the S/N values; and a run that returns has passed
    the three of them. *)
Theorem find_peaks_single_lookup_errors `{NumPy} (cluster_1d : Clustering)
    (pgram : Periodogram) (iwidth : nat) (boundaries : list Segment)
    (min_segments : Z) (snr_min nsigma peak_clustering_radius : Q)
    (polydeg : nat) :
  let run := find_peaks_single cluster_1d pgram iwidth boundaries min_segments
               snr_min nsigma peak_clustering_radius polydeg in
  ((ncols (snrs pgram) ≤ iwidth)%nat → run = Err IndexError) ∧
  (is_Ok (np_column (snrs pgram) iwidth) →
   (length (widths pgram) ≤ iwidth)%nat → run = Err IndexError) ∧
  (is_Ok (np_column (snrs pgram) iwidth) →
   (iwidth < length (widths pgram))%nat →
   metadata pgram !! "dm" = None → run = Err KeyError) ∧
  (is_Ok run →
   (iwidth < ncols (snrs pgram))%nat ∧ (iwidth < length (widths pgram))%nat ∧
   is_Some (metadata pgram !! "dm")).
Proof.
  cbv zeta. split_and!.
  - apply find_peaks_single_missing_column.
  - intros [col Hcol] Hw. unfold find_peaks_single. rewrite Hcol. simpl.
    by rewrite (lookup_ge_None_2 _ _ Hw).
  - intros [col Hcol] Hw Hd. unfold find_peaks_single. rewrite Hcol. simpl.
    destruct (lookup_lt_is_Some_2 _ _ Hw) as [w ->]. simpl. by rewrite Hd.
  - intros [[[[stats polyco] threshold] pks] Hrun].
    apply find_peaks_single_Ok in Hrun
      as (col & w & d & tfunc & mask & Hcol & Hw & Hd & _).
    split_and!.
    + unfold np_column in Hcol. by case_decide.
    + by eapply lookup_lt_Some.
    + by eexists.
Qed.

(** X7.  A successful run of [find_peaks_single] returns one statistics row
    per segment, one threshold per period trial, and peaks that all carry
    the index of the processed width and sit on a point of the grid: the
    period of a trial and the S/N of that trial in the processed column,
    with the width, the dispersion measure and the duty cycle of the
    grid. *)
Theorem find_peaks_single_outputs `{NumPy} (cluster_1d : Clustering)
    (pgram : Periodogram) (iwidth : nat) (boundaries : list Segment)
    (min_segments : Z) (snr_min nsigma peak_clustering_radius : Q)
    (polydeg : nat) (stats : list SegStats) (polyco threshold : list Q)
    (pks : list Peak) :
  find_peaks_single cluster_1d pgram iwidth boundaries min_segments snr_min
    nsigma peak_clustering_radius polydeg = Ok (stats, polyco, threshold, pks) →
  length stats = length boundaries ∧
  length threshold = length (periods pgram) ∧
  Forall (λ pk, iw pk = iwidth ∧ grid_peak pgram pk) pks.
Proof.
  intros Hrun. pose proof (find_peaks_single_peaks _ _ _ _ _ _ _ _ _ _ _ _ _ Hrun) as Hpk.
  apply find_peaks_single_Ok in Hrun
    as (col & w & d & tfunc & mask & _ & _ & _ & Hs & Ht & -> & _).
  destruct (select_threshold_spec _ _ _ _ _ _ _ _ Ht) as (f & Hf & _).
  split_and!.
  - apply result_mapM_Ok in Hs. symmetry. by eapply Forall2_length.
  - by rewrite Hf, length_fmap.
  - eapply Forall_impl; [exact Hpk|]. by intros pk (? & ? & _).
Qed.

(** ** The pooled peaks *)

Lemma find_peaks_loop_Ok `{NumPy} (cluster_1d : Clustering)
    (pgram : Periodogram) (boundaries : list Segment) (min_segments : Z)
    (snr_min nsigma peak_clustering_radius : Q) (polydeg : nat)
    (iwidths : list nat) (acc all_peaks : list Peak) :
  find_peaks_loop cluster_1d pgram boundaries min_segments snr_min nsigma
    peak_clustering_radius polydeg iwidths acc = Ok all_peaks →
  ∃ pkss : list (list Peak),
    Forall2 (λ iwidth pks, ∃ stats polyco threshold,
               find_peaks_single cluster_1d pgram iwidth boundaries min_segments
                 snr_min nsigma peak_clustering_radius polydeg
               = Ok (stats, polyco, threshold, pks)) iwidths pkss ∧
    all_peaks = acc ++ mjoin pkss.
Proof.
  revert acc. induction iwidths as [|iwidth rest IH]; intros acc; simpl.
  - intros [= <-]. exists []. split; [constructor|]. by rewrite app_nil_r.
  - destruct (find_peaks_single cluster_1d pgram iwidth boundaries min_segments
                snr_min nsigma peak_clustering_radius polydeg)
      as [[[[stats polyco] threshold] pks]|e] eqn:Hrun; simpl; [|done].
    intros (pkss & Hrest & ->)%IH. exists (pks :: pkss). split.
    + constructor; [eauto|done].
    + simpl. by rewrite <- app_assoc.
Qed.

(** The invariant of the pooled peaks. *)
Lemma pooled_peaks_spec `{NumPy} (cluster_1d : Clustering)
    (pgram : Periodogram) (segment_dftbins_length : Q) (min_segments : Z)
    (snr_min nsigma peak_clustering_radius : Q) (polydeg : nat)
    (all_peaks : list Peak) :
  pooled_peaks cluster_1d pgram segment_dftbins_length min_segments snr_min
    nsigma peak_clustering_radius polydeg = Ok all_peaks →
  Forall (λ pk, grid_peak pgram pk ∧ (snr_min < snr pk)%Q) all_peaks ∧
  ∀ i j pi pj, (i ≤ j)%nat → all_peaks !! i = Some pi → all_peaks !! j = Some pj →
               (iw pi ≤ iw pj)%nat.
Proof.
  unfold pooled_peaks. intros Hp.
  destruct (segment _ _ _) as [boundaries|e]; [|done]. simpl in Hp.
  apply find_peaks_loop_Ok in Hp as (pkss & Hruns & ->). simpl.
  assert (Hgen : ∀ (start : nat) (iwidths : list nat) (pkss : list (list Peak)),
            iwidths = seq start (length iwidths) →
            Forall2 (λ iwidth pks, ∃ stats polyco threshold,
               find_peaks_single cluster_1d pgram iwidth boundaries min_segments
                 snr_min nsigma peak_clustering_radius polydeg
               = Ok (stats, polyco, threshold, pks)) iwidths pkss →
            Forall (λ pk, grid_peak pgram pk ∧ (snr_min < snr pk)%Q ∧
                          (start ≤ iw pk)%nat) (mjoin pkss) ∧
            ∀ i j pi pj, (i ≤ j)%nat → mjoin pkss !! i = Some pi →
                         mjoin pkss !! j = Some pj → (iw pi ≤ iw pj)%nat).
  { clear. intros start iwidths pkss Hseq Hruns. revert start Hseq.
    induction Hruns as [|iwidth pks iwidths pkss (stats & polyco & thr & Hrun) _ IH];
      intros start Hseq.
    { split; [constructor|]. intros i j pi pj _ Hi. simpl in Hi. discriminate Hi. }
    simpl in Hseq. injection Hseq as -> Hseq.
    destruct (IH (S start) Hseq) as [Hall Hord].
    pose proof (find_peaks_single_peaks _ _ _ _ _ _ _ _ _ _ _ _ _ Hrun) as Hpk.
    assert (Hhead : Forall (λ pk, grid_peak pgram pk ∧ (snr_min < snr pk)%Q ∧
                                  iw pk = start) pks).
    { eapply Forall_impl; [exact Hpk|]. by intros pk (? & ? & ?). }
    simpl. split.
    - apply Forall_app. split.
      + eapply Forall_impl; [exact Hhead|]. intros pk (? & ? & ->). done.
      + eapply Forall_impl; [exact Hall|]. intros pk (? & ? & ?).
        split_and!; try done. lia.
    - intros i j pi pj Hij Hi Hj.
      rewrite Forall_forall in Hhead, Hall.
      destruct (decide (j < length pks)%nat) as [Hjl|Hjl].
      + rewrite lookup_app_l in Hi, Hj by lia.
        destruct (Hhead pi) as (_ & _ & ->); [by eapply list_elem_of_lookup_2|].
        destruct (Hhead pj) as (_ & _ & ->); [by eapply list_elem_of_lookup_2|].
        done.
      + rewrite lookup_app_r in Hj by lia.
        destruct (Hall pj) as (_ & _ & Hge); [by eapply list_elem_of_lookup_2|].
        destruct (decide (i < length pks)%nat) as [Hil|Hil].
        * rewrite lookup_app_l in Hi by lia.
          destruct (Hhead pi) as (_ & _ & ->); [by eapply list_elem_of_lookup_2|]. lia.
        * rewrite lookup_app_r in Hi by lia.
          apply (Hord (i - length pks)%nat (j - length pks)%nat); [lia|done|done]. }
  destruct (Hgen 0%nat (seq 0 (length (widths pgram))) pkss) as [Hall Hord];
    [by rewrite length_seq|done|].
  split; [|exact Hord].
  eapply Forall_impl; [exact Hall|]. by intros pk (? & ? & _).
Qed.

(** X8.  The peaks that [find_peaks] pools over the width trials all sit on
    a point of the grid with an S/N strictly above [snr_min], and come in
    the order of the width trials: the width index never decreases along
    the pooled list. *)
Theorem pooled_peaks_invariant `{NumPy} (cluster_1d : Clustering)
    (pgram : Periodogram) (segment_dftbins_length : Q) (min_segments : Z)
    (snr_min nsigma peak_clustering_radius : Q) (polydeg : nat)
    (all_peaks : list Peak) :
  pooled_peaks cluster_1d pgram segment_dftbins_length min_segments snr_min
    nsigma peak_clustering_radius polydeg = Ok all_peaks →
  Forall (λ pk, grid_peak pgram pk ∧ (snr_min < snr pk)%Q) all_peaks ∧
  ∀ i j pi pj, (i ≤ j)%nat → all_peaks !! i = Some pi → all_peaks !! j = Some pj →
               (iw pi ≤ iw pj)%nat.
Proof. apply pooled_peaks_spec. Qed.

(** ** More on detections *)

Lemma py_max_Ok {A} (key : A → Q) (l : list A) (top : A) :
  py_max key l = Ok top →
  l ≠ [] ∧ top ∈ l ∧ ∀ x, x ∈ l → (key x <= key top)%Q.
Proof.
  intros Hm. destruct (decide (l = [])) as [->|Hne]; [done|].
  destruct (py_max_spec key l Hne) as (top' & Hm' & Hin & Hall).
  assert (top' = top) as -> by congruence. done.
Qed.

Lemma np_where_from_sorted (i : nat) (mask : list bool) :
  Forall (λ j, i ≤ j)%nat (np_where_from i mask) ∧
  StronglySorted lt (np_where_from i mask).
Proof.
  revert i. induction mask as [|b mask IH]; intros i; simpl.
  - split; constructor.
  - destruct (IH (S i)) as [Hge Hs]. destruct b; simpl.
    + split.
      * constructor; [lia|]. eapply Forall_impl; [exact Hge|]. intros j Hj. simpl in Hj. lia.
      * constructor; [done|]. eapply Forall_impl; [exact Hge|]. intros j Hj. simpl in Hj. lia.
    + split; [|done]. eapply Forall_impl; [exact Hge|]. intros j Hj. simpl in Hj. lia.
Qed.

Lemma window_indices_elem (pgram : Periodogram) (center_period w : Q) (i : nat) :
  i ∈ window_indices pgram center_period w ↔ in_window pgram center_period w i.
Proof.
  unfold window_indices, in_window. rewrite np_where_elem, !list_lookup_fmap.
  destruct (periods pgram !! i) as [p|]; simpl.
  2:{ split; [done|]. by intros (p & d & c & ? & _). }
  unfold within_slice, fsub.
  destruct (fdiv (tobs pgram) p) as [d|] eqn:Hd; simpl.
  2:{ split; [done|]. intros (p' & d & c & [= <-] & ? & _). congruence. }
  destruct (fdiv (tobs pgram) center_period) as [c|] eqn:Hc; simpl.
  2:{ split; [done|]. intros (p' & d' & c & _ & _ & ? & _). congruence. }
  split.
  - intros [= Hlt]. apply Qltb_lt in Hlt. by exists p, d, c.
  - intros (p' & d' & c' & [= <-] & Hd' & Hc' & Hlt).
    assert (d' = d) as -> by congruence. assert (c' = c) as -> by congruence.
    apply Qltb_lt in Hlt. by rewrite Hlt.
Qed.

(** A successful [Detection.__init__], field by field. *)
Lemma Detection_init_inv (pks : list Peak) (pgram : Periodogram)
    (w : Q) (det : Detection) :
  Detection_init pks pgram w = Ok det →
  pks ≠ [] ∧ peaks det = pks ∧ as_peak det ∈ pks ∧
  (∀ p, p ∈ pks → (snr p <= snr det)%Q) ∧
  width_trials det = widths pgram ∧ det_metadata det = metadata pgram ∧
  ncols (snr_trials det) = ncols (snrs pgram) ∧
  np_take (periods pgram) (window_indices pgram (period det) w)
    = Ok (period_trials det) ∧
  np_take (rows (snrs pgram)) (window_indices pgram (period det) w)
    = Ok (rows (snr_trials det)).
Proof.
  unfold Detection_init. intros Hd.
  destruct (py_max snr pks) as [top|e] eqn:Htop; [|done]. simpl in Hd.
  apply py_max_Ok in Htop as (Hne & Hin & Hmax).
  fold (window_indices pgram (period top) w) in Hd.
  destruct (np_take (periods pgram) _) as [pt|e] eqn:Hpt; [|done]. simpl in Hd.
  unfold np_take_rows in Hd.
  destruct (np_take (rows (snrs pgram)) _) as [rs|e] eqn:Hrs; [|done]. simpl in Hd.
  injection Hd as <-. simpl. done.
Qed.

(** X11.  The local window of a detection: [Detection.__init__] selects
    the trials, in increasing order of index, whose DFT bin index
    [tobs / period] is finite and less than half the slice width away from
    that of the detection; [period_trials] holds their periods and
    [snr_trials] their S/N rows, with every column of the grid. *)
Theorem detection_window (pks : list Peak) (pgram : Periodogram)
    (period_slice_width : Q) (det : Detection) :
  Detection_init pks pgram period_slice_width = Ok det →
  ∃ idx : list nat,
    StronglySorted lt idx ∧
    (∀ i, i ∈ idx ↔ in_window pgram (period det) period_slice_width i) ∧
    Forall2 (λ i p, periods pgram !! i = Some p) idx (period_trials det) ∧
    Forall2 (λ i row, rows (snrs pgram) !! i = Some row) idx
      (rows (snr_trials det)) ∧
    ncols (snr_trials det) = ncols (snrs pgram).
Proof.
  intros (_ & _ & _ & _ & _ & _ & Hnc & Hpt & Hrs)%Detection_init_inv.
  exists (window_indices pgram (period det) period_slice_width). split_and!.
  - apply np_where_from_sorted.
  - apply window_indices_elem.
  - by apply np_take_Ok.
  - by apply np_take_Ok.
  - done.
Qed.

Lemma window_empty (pgram : Periodogram) (center_period w : Q) :
  (∀ i, ¬ in_window pgram center_period w i) →
  window_indices pgram center_period w = [].
Proof.
  intros Hno. destruct (window_indices pgram center_period w) as [|i idx] eqn:Hidx; [done|].
  destruct (Hno i). apply window_indices_elem. rewrite Hidx. apply list_elem_of_here.
Qed.

(** The window holds the trials whose period is the center period. *)
Lemma window_contains_center (pks : list Peak) (pgram : Periodogram) (w : Q)
    (det : Detection) :
  Detection_init pks pgram w = Ok det →
  (0 < w)%Q → ¬ (period det == 0)%Q → period det ∈ periods pgram →
  period det ∈ period_trials det.
Proof.
  intros (_ & _ & _ & _ & _ & _ & _ & Hpt & _)%Detection_init_inv Hw Hp Hin.
  apply np_take_Ok in Hpt.
  apply list_elem_of_lookup_1 in Hin as [i Hi].
  assert (Hwin : i ∈ window_indices pgram (period det) w).
  { apply window_indices_elem. unfold in_window.
    exists (period det), (tobs pgram / period det)%Q, (tobs pgram / period det)%Q.
    rewrite fdiv_Some by done. split_and!; try done.
    assert (Hz : (tobs pgram / period det - tobs pgram / period det == 0)%Q) by ring.
    rewrite Hz. simpl. apply Qlt_shift_div_l; [reflexivity|]. by rewrite Qmult_0_l. }
  apply list_elem_of_lookup_1 in Hwin as [k Hk].
  destruct (Forall2_lookup_l _ _ _ _ _ Hpt Hk) as (p & Hp' & Hpi).
  assert (p = period det) as -> by congruence.
  by eapply list_elem_of_lookup_2.
Qed.

(** X12.  Edges of the local window.  With a slice width that is zero or
    negative, or a detection of period zero, the window is empty: no period
    trial and no S/N row.  With a positive slice width and a non-zero
    period that is one of the grid's period trials, the window holds the
    detection's own period. *)
Theorem detection_window_edges (pks : list Peak) (pgram : Periodogram)
    (period_slice_width : Q) (det : Detection) :
  Detection_init pks pgram period_slice_width = Ok det →
  ((period_slice_width <= 0)%Q ∨ (period det == 0)%Q →
   period_trials det = [] ∧ rows (snr_trials det) = []) ∧
  ((0 < period_slice_width)%Q → ¬ (period det == 0)%Q →
   period det ∈ periods pgram → period det ∈ period_trials det).
Proof.
  intros Hd. split; [|by apply (window_contains_center pks)].
  apply Detection_init_inv in Hd as (_ & _ & _ & _ & _ & _ & _ & Hpt & Hrs).
  intros Hedge.
  rewrite window_empty in Hpt, Hrs.
  - simpl in Hpt, Hrs. injection Hpt as <-. by injection Hrs as <-.
  - intros i (p & d & c & _ & _ & Hc & Hlt). destruct Hedge as [Hw|Hz].
    + apply (Qlt_not_le _ _ Hlt). apply Qle_trans with 0%Q; [|apply Qabs_nonneg].
      apply Qle_shift_div_r; [reflexivity|]. by rewrite Qmult_0_l.
    + by rewrite (fdiv_None _ _ Hz) in Hc.
  - intros i (p & d & c & _ & _ & Hc & Hlt). destruct Hedge as [Hw|Hz].
    + apply (Qlt_not_le _ _ Hlt). apply Qle_trans with 0%Q; [|apply Qabs_nonneg].
      apply Qle_shift_div_r; [reflexivity|]. by rewrite Qmult_0_l.
    + by rewrite (fdiv_None _ _ Hz) in Hc.
Qed.

(** A successful [find_peaks], stage by stage. *)
Lemma find_peaks_Ok `{NumPy} (cluster_1d : Clustering)
    (pgram : Periodogram) (segment_dftbins_length : Q) (min_segments : Z)
    (snr_min nsigma peak_clustering_radius : Q) (polydeg : nat)
    (period_slice_width : Q) (dets : list Detection) :
  find_peaks cluster_1d pgram segment_dftbins_length min_segments snr_min
    nsigma peak_clustering_radius polydeg period_slice_width = Ok dets ↔
  ∃ all_peaks,
    pooled_peaks cluster_1d pgram segment_dftbins_length min_segments snr_min
      nsigma peak_clustering_radius polydeg = Ok all_peaks ∧
    Forall2 (λ cl det, ∃ peak_group,
               np_take all_peaks cl = Ok peak_group ∧
               Detection_init peak_group pgram period_slice_width = Ok det)
      (cluster_1d (peaks_dbi pgram all_peaks) peak_clustering_radius) dets.
Proof.
  unfold find_peaks.
  assert (Hbody : ∀ all_peaks cl det,
            cluster_detection pgram all_peaks period_slice_width cl = Ok det ↔
            ∃ peak_group, np_take all_peaks cl = Ok peak_group ∧
              Detection_init peak_group pgram period_slice_width = Ok det).
  { intros all_peaks cl det. unfold cluster_detection.
    destruct (np_take all_peaks cl) as [g|e]; simpl.
    - split; [eauto|]. by intros (g' & [= <-] & ?).
    - split; [done|]. by intros (g' & ? & _). }
  split.
  - intros Hf. destruct (pooled_peaks _ _ _ _ _ _ _ _) as [all_peaks|e]; [|done].
    simpl in Hf. exists all_peaks. split; [done|].
    apply result_mapM_Ok in Hf. eapply Forall2_impl; [exact Hf|].
    intros cl det. apply Hbody.
  - intros (all_peaks & -> & Hf). simpl. apply result_mapM_Ok.
    eapply Forall2_impl; [exact Hf|]. intros cl det. apply Hbody.
Qed.

(** ** More on [find_peaks] *)

(** X9.  Every detection that [find_peaks] returns is built on at least one
    pooled peak and on pooled peaks only; it sits itself on a point of the
    grid, with an S/N strictly above [snr_min]; it carries the width trials
    and the metadata of the grid; and, for a positive slice width and a
    non-zero period, its window of period trials holds its own period. *)
Theorem find_peaks_detections `{NumPy} (cluster_1d : Clustering)
    (pgram : Periodogram) (segment_dftbins_length : Q) (min_segments : Z)
    (snr_min nsigma peak_clustering_radius : Q) (polydeg : nat)
    (period_slice_width : Q) (dets : list Detection) :
  find_peaks cluster_1d pgram segment_dftbins_length min_segments snr_min
    nsigma peak_clustering_radius polydeg period_slice_width = Ok dets →
  ∃ all_peaks,
    pooled_peaks cluster_1d pgram segment_dftbins_length min_segments snr_min
      nsigma peak_clustering_radius polydeg = Ok all_peaks ∧
    Forall (λ det : Detection,
      peaks det ≠ [] ∧
      as_peak det ∈ peaks det ∧
      (∀ p, p ∈ peaks det → p ∈ all_peaks) ∧
      grid_peak pgram det ∧
      (snr_min < snr det)%Q ∧
      width_trials det = widths pgram ∧
      det_metadata det = metadata pgram ∧
      ((0 < period_slice_width)%Q → ¬ (period det == 0)%Q →
       period det ∈ period_trials det)) dets.
Proof.
  intros (all_peaks & Hpool & Hdets)%find_peaks_Ok.
  exists all_peaks. split; [done|].
  destruct (pooled_peaks_spec _ _ _ _ _ _ _ _ _ Hpool) as [Hgrid _].
  rewrite Forall_forall in Hgrid.
  apply Forall_forall. intros det Hin.
  apply list_elem_of_lookup_1 in Hin as [k Hk].
  destruct (Forall2_lookup_r _ _ _ _ _ Hdets Hk) as (cl & _ & g & Hg & Hd).
  pose proof Hd as (Hne & Hpk & Htop & _ & Hw & Hm & _)%Detection_init_inv.
  apply np_take_Ok in Hg.
  assert (Hsub : ∀ p, p ∈ peaks det → p ∈ all_peaks).
  { rewrite Hpk. intros p [j Hj]%list_elem_of_lookup_1.
    destruct (Forall2_lookup_r _ _ _ _ _ Hg Hj) as (ix & _ & Hix).
    by eapply list_elem_of_lookup_2. }
  rewrite <- Hpk in Htop, Hne.
  destruct (Hgrid (as_peak det) (Hsub _ Htop)) as [Hgp Hfloor].
  split_and!; try done.
  intros Hpos Hnz. apply (window_contains_center g pgram period_slice_width det Hd Hpos Hnz).
  destruct Hgp as (_ & _ & _ & i & row & Hi & _). by eapply list_elem_of_lookup_2.
Qed.

Lemma np_take_fmap {A} (a : list A) (d : A) (indices : list nat) (l : list A) :
  np_take a indices = Ok l → l = (λ i, default d (a !! i)) <$> indices.
Proof.
  intros Ht%np_take_Ok. induction Ht as [|i x indices l Hx _ IH]; [done|].
  rewrite fmap_cons, Hx, IH. done.
Qed.

(** X10.  When the clustering of the pooled peaks is a partition of their
    indices, [find_peaks] neither loses nor duplicates a peak: the peaks of
    the detections, put end to end, are a permutation of the pooled
    peaks. *)
Theorem find_peaks_keeps_every_peak `{NumPy} (cluster_1d : Clustering)
    (pgram : Periodogram) (segment_dftbins_length : Q) (min_segments : Z)
    (snr_min nsigma peak_clustering_radius : Q) (polydeg : nat)
    (period_slice_width : Q) (all_peaks : list Peak) (dets : list Detection) :
  pooled_peaks cluster_1d pgram segment_dftbins_length min_segments snr_min
    nsigma peak_clustering_radius polydeg = Ok all_peaks →
  find_peaks cluster_1d pgram segment_dftbins_length min_segments snr_min
    nsigma peak_clustering_radius polydeg period_slice_width = Ok dets →
  mjoin (cluster_1d (peaks_dbi pgram all_peaks) peak_clustering_radius)
    ≡ₚ seq 0 (length all_peaks) →
  mjoin (peaks <$> dets) ≡ₚ all_peaks.
Proof.
  intros Hpool (all_peaks' & Hpool' & Hdets)%find_peaks_Ok Hperm.
  assert (all_peaks' = all_peaks) as -> by congruence.
  set (clusters := cluster_1d _ _) in *.
  destruct all_peaks as [|pk0 rest] eqn:Hall.
  { simpl in Hperm. apply Permutation_nil_r in Hperm.
    assert (Hnil : Forall (λ det, peaks det = []) dets).
    { apply Forall_forall. intros det [k Hk]%list_elem_of_lookup_1.
      destruct (Forall2_lookup_r _ _ _ _ _ Hdets Hk) as (cl & Hcl & g & Hg & Hd).
      apply Detection_init_inv in Hd as (_ & -> & _).
      apply np_take_Ok in Hg. destruct Hg as [|ix p cl' g' Hix _]; [done|].
      by rewrite lookup_nil in Hix. }
    assert (Hj : mjoin (peaks <$> dets) = []).
    { clear -Hnil. induction Hnil as [|det dets Hd _ IH]; [done|].
      rewrite fmap_cons. simpl. by rewrite Hd, IH. }
    by rewrite Hj. }
  rewrite <- Hall in *.
  set (f := λ i : nat, default pk0 (all_peaks !! i)).
  assert (Hpeaks : mjoin (peaks <$> dets) = f <$> mjoin clusters).
  { clear Hperm. induction Hdets as [|cl det cls dets' (g & Hg & Hd) _ IH]; [done|].
    rewrite fmap_cons. simpl. rewrite fmap_app, <- IH. f_equal.
    apply Detection_init_inv in Hd as (_ & -> & _).
    by apply np_take_fmap. }
  rewrite Hpeaks, Hperm.
  assert (Hid : f <$> seq 0 (length all_peaks) = all_peaks).
  { apply list_eq. intros i. rewrite list_lookup_fmap.
    destruct (decide (i < length all_peaks)%nat) as [Hlt|Hge].
    - rewrite lookup_seq_lt by done. simpl. unfold f.
      destruct (lookup_lt_is_Some_2 all_peaks i Hlt) as [p Hp]. by rewrite Hp.
    - rewrite lookup_seq_ge by lia. by rewrite lookup_ge_None_2 by lia. }
  by rewrite Hid.
Qed.


(** ** Segment statistics beyond the end of the column *)

Lemma py_slice_nonneg {A} (l : list A) (s e : Z) :
  0 ≤ s → 0 ≤ e →
  py_slice l s e = take (Z.to_nat e - Z.to_nat s) (drop (Z.to_nat s) l) ∧
  length (py_slice l s e)
  = (Z.to_nat (Z.min e (len l)) - Z.to_nat (Z.min s (len l)))%nat.
Proof.
  intros Hs He. unfold py_slice, slice_bound. cbv zeta.
  destruct (Z.ltb_spec s 0); [lia|]. destruct (Z.ltb_spec e 0); [lia|].
  unfold len. split.
  - destruct (Z.le_gt_cases (Z.of_nat (length l)) s) as [Hout|Hin].
    + rewrite !drop_ge by lia. by rewrite !take_nil.
    + rewrite (Z.min_l s) by lia.
      destruct (Z.le_gt_cases e (Z.of_nat (length l))) as [Hein|Heout].
      * by rewrite (Z.min_l e) by lia.
      * rewrite (Z.min_r e) by lia.
        rewrite !take_ge; [done|rewrite length_drop; lia|rewrite length_drop; lia].
  - rewrite length_take, length_drop. lia.
Qed.

(** X13.  [segment_stats] never raises by itself: it returns exactly when
    [np.percentile] returns on the sample of every segment.  The sample of a
    segment with non-negative bounds is a plain slice, clipped to the
    column: it holds the S/N values at the indices of the segment that the
    column has, and is empty when the segment starts at or beyond the end
    of the column. *)
Theorem segment_stats_clips `{NumPy} (snrs : list Q) (boundaries : list Segment) :
  (is_Ok (segment_stats snrs boundaries) ↔
   Forall (λ b, ∀ q, q ∈ [25; 50; 75]%Q →
                is_Ok (np_percentile (py_slice snrs (istart b) (iend b)) q))
     boundaries) ∧
  ∀ b, 0 ≤ istart b → 0 ≤ iend b →
    py_slice snrs (istart b) (iend b)
    = take (Z.to_nat (iend b) - Z.to_nat (istart b))
        (drop (Z.to_nat (istart b)) snrs) ∧
    length (py_slice snrs (istart b) (iend b))
    = (Z.to_nat (Z.min (iend b) (len snrs))
       - Z.to_nat (Z.min (istart b) (len snrs)))%nat ∧
    (len snrs ≤ istart b → py_slice snrs (istart b) (iend b) = []).
Proof.
  split.
  - unfold segment_stats. split.
    + intros [stats Hs]. apply result_mapM_Ok in Hs.
      apply Forall_forall. intros b [k Hk]%list_elem_of_lookup_1.
      destruct (Forall2_lookup_l _ _ _ _ _ Hs Hk) as (st & _ & Hrow).
      unfold segment_stats_row in Hrow. cbv zeta in Hrow.
      step_result Hrow. step_result Hrow. step_result Hrow.
      intros q Hq. repeat (apply elem_of_cons in Hq as [->|Hq]; [by eexists|]).
      by apply elem_of_nil in Hq.
    + intros Hall. apply result_mapM_total.
      eapply Forall_impl; [exact Hall|]. intros b Hb. simpl in Hb.
      unfold segment_stats_row. cbv zeta.
      destruct (Hb 25%Q) as [q25 ->]; [set_solver|].
      destruct (Hb 50%Q) as [q50 ->]; [set_solver|].
      destruct (Hb 75%Q) as [q75 ->]; [set_solver|].
      simpl. by eexists.
  - intros b Hs He. destruct (py_slice_nonneg snrs (istart b) (iend b) Hs He) as [Heq Hlen].
    split_and!; try done.
    intros Hout. apply length_zero_iff_nil. rewrite Hlen. lia.
Qed.

(** ** More on the store *)




(** ** The further properties at work on the examples *)

Lemma segment_sizes_witness :
  ∃ segs,
    segment (H:=numpy_exact) (periods example_pgram) 100 10 = Ok segs ∧
    len segs = 8 ∧
    ∀ k s, segs !! k = Some s → iend s - istart s = 1.
Proof.
  destruct (segment (H:=numpy_exact) (periods example_pgram) 100 10)
    as [segs|e] eqn:E; [|vm_compute in E; discriminate E].
  destruct (segment_sizes (H:=numpy_exact) (periods example_pgram) 100 10 segs E)
    as [_ Hsizes].
  assert (Hlen : length segs = 8%nat).
  { vm_compute in E. by injection E as <-. }
  exists segs. split; [reflexivity|]. split; [unfold len; by rewrite Hlen|].
  intros k s Hk. destruct (Hsizes k s Hk) as [Hbefore Hlast].
  unfold len in *. rewrite Hlen in *. simpl in *.
  destruct (decide (S k = 8)%nat) as [Hl|Hl].
  - destruct (Hlast Hl) as [Heq _]. rewrite Heq. reflexivity.
  - rewrite Hbefore; [reflexivity|].
    apply lookup_lt_Some in Hk. lia.
Defined.

Lemma segment_mid_trial_witness :
  ∃ segs,
    segment (H:=numpy_exact) (periods example_pgram) 100 10 = Ok segs ∧
    ∀ s, s ∈ segs → 0 ≤ imid s < 8 ∧
                    periods example_pgram !! Z.to_nat (imid s) = Some (pmid s).
Proof.
  destruct (segment (H:=numpy_exact) (periods example_pgram) 100 10)
    as [segs|e] eqn:E; [|vm_compute in E; discriminate E].
  exists segs. split; [reflexivity|]. intros s Hs.
  destruct (segment_mid_trial (H:=numpy_exact) (periods example_pgram) 100 10 segs
              E s Hs) as (_ & Hr & _ & _ & Hp & _).
  split; [exact Hr|exact Hp].
Defined.

Lemma segment_single_witness :
  ∃ s, segment (H:=numpy_exact) [8; 4; 2; 1]%Q 100 10 = Ok [s] ∧
       istart s = 0 ∧ iend s = 4 ∧ imid s = 2.
Proof.
  apply (segment_single (H:=numpy_exact) [8; 4; 2; 1]%Q 100 10 8 1);
    first [reflexivity | (intros Hz; vm_compute in Hz; discriminate Hz)].
Defined.

Lemma segment_more_than_trials_witness :
  ∃ s1 s2 s3,
    segment (H:=numpy_exact) [1; 2]%Q 60 10 = Ok [s1; s2; s3] ∧
    (istart s1 = 0 ∧ iend s1 = 0) ∧ (istart s2 = 0 ∧ iend s2 = 0) ∧
    (istart s3 = 0 ∧ iend s3 = 2).
Proof.
  destruct (segment (H:=numpy_exact) [1; 2]%Q 60 10) as [segs|e] eqn:E;
    [|vm_compute in E; discriminate E].
  assert (Hlen : length segs = 3%nat).
  { vm_compute in E. by injection E as <-. }
  destruct segs as [|s1 [|s2 [|s3 [|s4 segs]]]]; try discriminate Hlen.
  pose proof (segment_more_than_trials (H:=numpy_exact) [1; 2]%Q 60 10
                [s1; s2; s3] E ltac:(reflexivity)) as Hrows.
  exists s1, s2, s3. split; [reflexivity|].
  destruct (Hrows 0%nat s1 eq_refl) as [H1 _].
  destruct (Hrows 1%nat s2 eq_refl) as [H2 _].
  destruct (Hrows 2%nat s3 eq_refl) as [_ H3].
  destruct (H1 ltac:(simpl; lia)) as (? & ? & _).
  destruct (H2 ltac:(simpl; lia)) as (? & ? & _).
  destruct (H3 eq_refl) as (? & ?).
  done.
Defined.

Lemma find_peaks_single_outputs_witness :
  ∃ stats polyco threshold pks,
    find_peaks_single (H:=numpy_exact) cluster_1d example_pgram 1
      example_boundaries 8 6.5 6.5 0.20 2 = Ok (stats, polyco, threshold, pks) ∧
    length stats = 8%nat ∧ length threshold = 8%nat ∧
    Forall (λ pk, iw pk = 1%nat ∧ grid_peak example_pgram pk) pks.
Proof.
  destruct (find_peaks_single (H:=numpy_exact) cluster_1d example_pgram 1
              example_boundaries 8 6.5 6.5 0.20 2)
    as [[[[stats polyco] threshold] pks]|e] eqn:E;
    [|vm_compute in E; discriminate E].
  exists stats, polyco, threshold, pks. split; [reflexivity|].
  exact (find_peaks_single_outputs (H:=numpy_exact) cluster_1d example_pgram 1
           example_boundaries 8 6.5 6.5 0.20 2 stats polyco threshold pks E).
Defined.

Lemma pooled_peaks_invariant_witness :
  pooled_peaks (H:=numpy_exact) cluster_1d example_pgram
    default_segment_dftbins_length 9 default_snr_min default_nsigma
    default_peak_clustering_radius default_polydeg = Ok example_all_peaks ∧
  length example_all_peaks = 4%nat ∧
  Forall (λ pk, grid_peak example_pgram pk ∧ (default_snr_min < snr pk)%Q)
    example_all_peaks.
Proof.
  assert (E : pooled_peaks (H:=numpy_exact) cluster_1d example_pgram
                default_segment_dftbins_length 9 default_snr_min default_nsigma
                default_peak_clustering_radius default_polydeg
              = Ok example_all_peaks) by (vm_compute; reflexivity).
  split; [exact E|]. split; [reflexivity|].
  exact (proj1 (pooled_peaks_invariant (H:=numpy_exact) cluster_1d example_pgram
                  default_segment_dftbins_length 9 default_snr_min default_nsigma
                  default_peak_clustering_radius default_polydeg
                  example_all_peaks E)).
Defined.

Lemma find_peaks_detections_witness :
  ∃ dets,
    find_peaks (H:=numpy_exact) cluster_1d example_pgram
      default_segment_dftbins_length 9 default_snr_min default_nsigma
      default_peak_clustering_radius default_polydeg default_period_slice_width
    = Ok dets ∧
    length dets = 3%nat ∧
    Forall (λ det : Detection,
              grid_peak example_pgram det ∧ (default_snr_min < snr det)%Q ∧
              period det ∈ period_trials det) dets.
Proof.
  destruct (find_peaks (H:=numpy_exact) cluster_1d example_pgram
              default_segment_dftbins_length 9 default_snr_min default_nsigma
              default_peak_clustering_radius default_polydeg
              default_period_slice_width) as [dets|e] eqn:E;
    [|vm_compute in E; discriminate E].
  destruct (find_peaks_detections (H:=numpy_exact) cluster_1d example_pgram
              default_segment_dftbins_length 9 default_snr_min default_nsigma
              default_peak_clustering_radius default_polydeg
              default_period_slice_width dets E) as (all_peaks & _ & Hdets).
  exists dets. split; [reflexivity|]. split.
  { vm_compute in E. by injection E as <-. }
  assert (Hnz : Forall (λ det : Detection, ¬ (period det == 0)%Q) dets).
  { vm_compute in E. injection E as <-.
    repeat constructor; intros Hz; vm_compute in Hz; discriminate Hz. }
  rewrite Forall_forall in Hnz.
  apply Forall_forall. intros det Hin.
  rewrite Forall_forall in Hdets.
  destruct (Hdets det Hin) as (_ & _ & _ & Hg & Hf & _ & _ & Hw).
  split; [exact Hg|]. split; [exact Hf|].
  apply Hw; [reflexivity|by apply Hnz].
Defined.

Lemma find_peaks_keeps_every_peak_witness :
  ∃ dets,
    find_peaks (H:=numpy_exact) cluster_1d example_pgram
      default_segment_dftbins_length 9 default_snr_min default_nsigma
      default_peak_clustering_radius default_polydeg default_period_slice_width
    = Ok dets ∧
    mjoin (peaks <$> dets) ≡ₚ example_all_peaks.
Proof.
  destruct (find_peaks (H:=numpy_exact) cluster_1d example_pgram
              default_segment_dftbins_length 9 default_snr_min default_nsigma
              default_peak_clustering_radius default_polydeg
              default_period_slice_width) as [dets|e] eqn:E;
    [|vm_compute in E; discriminate E].
  exists dets. split; [reflexivity|].
  apply (find_peaks_keeps_every_peak (H:=numpy_exact) cluster_1d example_pgram
           default_segment_dftbins_length 9 default_snr_min default_nsigma
           default_peak_clustering_radius default_polydeg
           default_period_slice_width example_all_peaks dets).
  - vm_compute. reflexivity.
  - exact E.
  - exact (proj1 (cluster_1d_partition (peaks_dbi example_pgram example_all_peaks)
                    default_peak_clustering_radius)).
Defined.

Lemma detection_window_witness :
  ∃ det idx,
    Detection_init example_all_peaks example_pgram 10 = Ok det ∧
    (∀ i, i ∈ idx ↔ in_window example_pgram (period det) 10 i) ∧
    Forall2 (λ i p, periods example_pgram !! i = Some p) idx (period_trials det) ∧
    period_trials det = [6; 7; 8]%Q.
Proof.
  destruct (Detection_init example_all_peaks example_pgram 10) as [det|e] eqn:E;
    [|vm_compute in E; discriminate E].
  destruct (detection_window example_all_peaks example_pgram 10 det E)
    as (idx & _ & Hwin & Hpt & _).
  exists det, idx. split; [reflexivity|]. split; [exact Hwin|]. split; [exact Hpt|].
  vm_compute in E. by injection E as <-.
Defined.

Lemma detection_window_edges_witness :
  ∃ det,
    Detection_init example_all_peaks example_pgram 0 = Ok det ∧
    period_trials det = [] ∧ rows (snr_trials det) = [].
Proof.
  destruct (Detection_init example_all_peaks example_pgram 0) as [det|e] eqn:E;
    [|vm_compute in E; discriminate E].
  exists det. split; [reflexivity|].
  apply (detection_window_edges example_all_peaks example_pgram 0 det E).
  left. apply Qle_refl.
Defined.


(** ** The static policy needs neither the fit nor the logarithm *)

Lemma result_mapM_ext {A B} (f g : A → result B) (l : list A) :
  (∀ a, f a = g a) → result_mapM f l = result_mapM g l.
Proof.
  intros Hfg. induction l as [|a l IH]; [done|]. simpl. by rewrite Hfg, IH.
Qed.

(** X18.  With fewer segments than [min_segments], [find_peaks_single]
    calls neither [np.polyfit] nor [np.log]: two instances of the kernels
    with the same [np.percentile] give the same result, so that a fit that
    would fail cannot break the search under the static policy. *)
Theorem static_policy_ignores_fit (H1 H2 : NumPy) (cluster_1d : Clustering)
    (pgram : Periodogram) (iwidth : nat) (boundaries : list Segment)
    (min_segments : Z) (snr_min nsigma peak_clustering_radius : Q)
    (polydeg : nat) :
  (∀ a q, np_percentile (NumPy:=H1) a q = np_percentile (NumPy:=H2) a q) →
  len boundaries < min_segments →
  find_peaks_single (H:=H1) cluster_1d pgram iwidth boundaries min_segments
    snr_min nsigma peak_clustering_radius polydeg
  = find_peaks_single (H:=H2) cluster_1d pgram iwidth boundaries min_segments
      snr_min nsigma peak_clustering_radius polydeg.
Proof.
  intros Hperc Hlt. unfold find_peaks_single.
  destruct (np_column (snrs pgram) iwidth) as [col|e]; [|done]. simpl.
  destruct (widths pgram !! iwidth) as [w|]; [|done]. simpl.
  destruct (metadata pgram !! "dm") as [d|]; [|done]. simpl.
  assert (Hstats : segment_stats (H:=H1) col boundaries
                   = segment_stats (H:=H2) col boundaries).
  { unfold segment_stats. apply result_mapM_ext. intros b.
    unfold segment_stats_row. cbv zeta. by rewrite !Hperc. }
  rewrite Hstats.
  destruct (segment_stats (H:=H2) col boundaries) as [stats|e]; [|done]. simpl.
  unfold select_threshold.
  destruct (Z.ltb_spec (len boundaries) min_segments); [done|lia].
Qed.

Lemma static_policy_ignores_fit_witness :
  find_peaks_single (H:=numpy_exact) cluster_1d example_pgram 0
    example_boundaries 9 6.5 6.5 0.20 2
  = find_peaks_single (H:=numpy_without_fit) cluster_1d example_pgram 0
      example_boundaries 9 6.5 6.5 0.20 2.
Proof.
  apply (static_policy_ignores_fit numpy_exact numpy_without_fit);
    [reflexivity|reflexivity].
Defined.

(** ** SIGPROC coordinates *)

Lemma float_divmod_unique (x y : Q) (q : Z) (r : Q) :
  (0 < y)%Q → (x == inject_Z q * y + r)%Q → (0 <= r)%Q → (r < y)%Q →
  (float_divmod x y).1 = inject_Z q ∧ ((float_divmod x y).2 == r)%Q.
Proof.
  intros Hy Hx Hr0 Hr1. unfold float_divmod. cbv zeta. cbn [fst snd].
  assert (Hq : Qfloor (x / y) = q).
  { assert (Hxy : (x / y == inject_Z q + r / y)%Q).
    { rewrite Hx. field. intros Hz. rewrite Hz in Hy. by apply Qlt_irrefl in Hy. }
    assert (H0 : (0 <= r / y)%Q) by (apply Qle_shift_div_l; [done|by rewrite Qmult_0_l]).
    assert (H1 : (r / y < 1)%Q) by (apply Qlt_shift_div_r; [done|by rewrite Qmult_1_l]).
    assert (Ha : (inject_Z (Qfloor (x / y)) < inject_Z (q + 1))%Q).
    { eapply Qle_lt_trans; [apply Qfloor_le|]. rewrite Hxy, inject_Z_plus.
      apply Qplus_lt_r. exact H1. }
    assert (Hb : (inject_Z q < inject_Z (Qfloor (x / y) + 1))%Q).
    { eapply Qle_lt_trans; [|apply Qlt_floor]. rewrite Hxy.
      rewrite <- (Qplus_0_r (inject_Z q)) at 1. apply Qplus_le_r. exact H0. }
    rewrite <- Zlt_Qlt in Ha, Hb. lia. }
  rewrite Hq. split; [done|]. rewrite Hx. ring.
Qed.

Lemma np_sign_opp (f : Q) : (np_sign (- f) == - np_sign f)%Q.
Proof.
  unfold np_sign.
  destruct (Qcompare_spec f 0) as [He|Hl|Hg].
  - assert (H0 : (- f ?= 0)%Q = Eq) by (apply Qeq_alt; rewrite He; reflexivity).
    by rewrite H0.
  - assert (H0 : (- f ?= 0)%Q = Gt).
    { apply Qgt_alt. apply (Qopp_lt_compat f 0) in Hl. exact Hl. }
    by rewrite H0.
  - assert (H0 : (- f ?= 0)%Q = Lt).
    { apply Qlt_alt. apply (Qopp_lt_compat 0 f) in Hg. exact Hg. }
    by rewrite H0.
Qed.

(** X19.  [parse_float_coord] decodes SIGPROC's decimal coordinates: on
    [hh * 10000 + mm * 100 + ss] with [hh >= 0] and [mm], [ss] in
    [[0, 100)] it returns [hh + mm / 60 + ss / 3600], with the sign of the
    argument in front; the coordinate of opposite sign decodes to the
    opposite value. *)
Theorem parse_float_coord_decodes (hh mm : Z) (ss : Q) :
  0 ≤ hh → 0 ≤ mm < 100 → (0 <= ss)%Q → (ss < 100)%Q →
  let f := (inject_Z hh * 10000 + inject_Z mm * 100 + ss)%Q in
  let value := (inject_Z hh + inject_Z mm / 60 + ss / 3600)%Q in
  (parse_float_coord f == np_sign f * value)%Q ∧
  (parse_float_coord (- f) == - parse_float_coord f)%Q ∧
  ((0 < f)%Q → (parse_float_coord f == value)%Q ∧
               (parse_float_coord (- f) == - value)%Q).
Proof.
  intros Hhh Hmm Hss0 Hss1. cbv zeta.
  set (f := (inject_Z hh * 10000 + inject_Z mm * 100 + ss)%Q).
  assert (Hm0 : (0 <= inject_Z mm)%Q) by (change (inject_Z 0 <= inject_Z mm)%Q; rewrite <- Zle_Qle; lia).
  assert (Hm1 : (inject_Z mm <= 99)%Q) by (change (inject_Z mm <= inject_Z 99)%Q; rewrite <- Zle_Qle; lia).
  assert (Hh0 : (0 <= inject_Z hh)%Q) by (change (inject_Z 0 <= inject_Z hh)%Q; rewrite <- Zle_Qle; lia).
  assert (Hf0 : (0 <= f)%Q) by (unfold f; nra).
  assert (Habs : (Qabs f == f)%Q) by (by apply Qabs_pos).
  assert (Habs' : (Qabs (- f) == f)%Q) by (rewrite Qabs_opp; exact Habs).
  assert (Hbody : ∀ x, (x == f)%Q →
            let '(h, x') := float_divmod x 10000 in
            let '(m, s) := float_divmod x' 100 in
            (h + m / 60 + s / 3600 == inject_Z hh + inject_Z mm / 60 + ss / 3600)%Q).
  { intros x Hx.
    destruct (float_divmod_unique x 10000 hh (inject_Z mm * 100 + ss)) as [Hq Hr].
    - reflexivity.
    - rewrite Hx. unfold f. ring.
    - nra.
    - nra.
    - destruct (float_divmod x 10000) as [h x'] eqn:E1. simpl in Hq, Hr.
      destruct (float_divmod_unique x' 100 mm ss) as [Hq' Hr'].
      + reflexivity.
      + rewrite Hr. ring.
      + done.
      + done.
      + destruct (float_divmod x' 100) as [m s] eqn:E2. simpl in Hq', Hr'.
        rewrite Hq, Hq', Hr'. reflexivity. }
  assert (Hpos : (parse_float_coord f
                  == np_sign f * (inject_Z hh + inject_Z mm / 60 + ss / 3600))%Q).
  { unfold parse_float_coord. cbv zeta.
    pose proof (Hbody (Qabs f) Habs) as Hb.
    destruct (float_divmod (Qabs f) 10000) as [h x'].
    destruct (float_divmod x' 100) as [m s]. by rewrite Hb. }
  assert (Hneg : (parse_float_coord (- f)
                  == np_sign (- f) * (inject_Z hh + inject_Z mm / 60 + ss / 3600))%Q).
  { unfold parse_float_coord. cbv zeta.
    pose proof (Hbody (Qabs (- f)) Habs') as Hb.
    destruct (float_divmod (Qabs (- f)) 10000) as [h x'].
    destruct (float_divmod x' 100) as [m s]. by rewrite Hb. }
  split_and!.
  - exact Hpos.
  - rewrite Hneg, Hpos, np_sign_opp. ring.
  - intros Hfpos.
    assert (Hs : np_sign f = 1%Q).
    { unfold np_sign. apply Qgt_alt in Hfpos. by rewrite Hfpos. }
    split.
    + rewrite Hpos, Hs. ring.
    + rewrite Hneg, np_sign_opp, Hs. ring.
Qed.

Lemma parse_float_coord_decodes_witness :
  (parse_float_coord 123456.5 == 12 + 34 / 60 + 56.5 / 3600)%Q ∧
  (parse_float_coord (- 123456.5) == - (12 + 34 / 60 + 56.5 / 3600))%Q.
Proof.
  destruct (parse_float_coord_decodes 12 34 56.5) as (_ & _ & Hpos);
    [lia|lia|by vm_compute|by vm_compute|].
  destruct (Hpos ltac:(by vm_compute)) as [H1 H2].
  split.
  - rewrite <- H1. reflexivity.
  - rewrite <- H2. reflexivity.
Defined.
